(** * TorchDynamicShardInferenceEngine: a shallow embedding

    The engine of [exo/inference/torch/pt_inference.py] is a Python object
    whose attributes are mutated by [async] methods.  Attribute writes made
    before an exception is raised stay visible afterwards, so the methods are
    embedded in a monad that threads the engine through every step and keeps
    it when a step raises. *)

From Stdlib Require Import String List ZArith QArith Bool Arith Lia.
From ExtLib Require Import Structures.Monad.
Import ListNotations.
Import MonadNotation.
Local Open Scope monad_scope.
Local Open Scope nat_scope.

(** ** Data model *)

(** Modelled from the spec: the [Shard] dataclass of [exo.inference.shard]
    is imported, not defined, by the engine.  Section 3 of the specification
    describes it as a model identifier, a total layer count and a layer range
    {start, end}, immutable and compared by value. *)
Record Shard := {
  model_id : string;
  start_layer : Z;
  end_layer : Z;
  n_layers : Z
}.

Definition Shard_eq_dec (a b : Shard) : {a = b} + {a <> b}.
Proof.
  decide equality; first [apply Z.eq_dec | apply string_dec].
Defined.

Definition Shard_eq_dec' (stored : option Shard) (shard : Shard)
  : {stored = Some shard} + {stored <> Some shard}.
Proof.
  destruct stored as [d|]; [|right; discriminate].
  destruct (Shard_eq_dec d shard); [left|right]; congruence.
Defined.

(** [self.shard == shard], where [self.shard] is [None] or a [Shard]. *)
Definition shard_eqb (stored : option Shard) (shard : Shard) : bool :=
  match stored with
  | None => false
  | Some d => if Shard_eq_dec d shard then true else false
  end.

(** A numpy array or torch tensor: its shape and its elements in row-major
    order.  The engine never computes on the elements. *)
Record ndarray := {
  shape : list nat;
  data : list Q
}.

Definition ndim (a : ndarray) : nat := length (shape a).

Definition shape_eqb (s1 s2 : list nat) : bool :=
  if list_eq_dec Nat.eq_dec s1 s2 then true else false.

Definition numel (sh : list nat) : nat := fold_right Nat.mul 1 sh.

(** A numpy array is well formed when it holds as many elements as its
    shape announces. *)
Definition well_formed (a : ndarray) : Prop :=
  length (data a) = numel (shape a).

(** The array [[[t]]] of shape (1, 1). *)
Definition token (t : Q) : ndarray := {| shape := [1; 1]; data := [t] |}.

(** Handles of the objects the collaborators build. *)
Definition path := string.
Inductive config := Config (id : nat).
Inductive tokenizer_handle := Tokenizer (id : nat).
Inductive model_handle := Model (id : nat).

(** Python exceptions, after the taxonomy of the specification plus the
    built-in ones the engine itself can provoke. *)
Inductive exn :=
| ShardUnavailable
| ShardLoadFailure
| TokenizationFailure
| InferenceFailure
| SamplingFailure
| AttributeError
| IndexError
| TypeError
| RuntimeError.

Inductive result (A : Type) :=
| Ok (a : A)
| Raise (e : exn).
Arguments Ok {A} a.
Arguments Raise {A} e.

Definition is_ok {A} (r : result A) : bool :=
  match r with Ok _ => true | Raise _ => false end.

(** Calls that leave the engine, in the order they are made. *)
Inductive event :=
| EvDownload (shard : Shard) (engine_name : string)
| EvLoadConfig (p : path)
| EvLlamaTokenizer (p : path)
| EvResolveTokenizer (p : path)
| EvConstructModel (cfg : config) (shard : Shard)
| EvLoadWeights (p : path) (shard : Shard) (m : model_handle)
| EvGenerate (m : model_handle) (tokens hidden_state : option ndarray)
| EvSample (logits : ndarray) (temp : Q) (top_k : Z).

(** The attributes of the engine object.  [self.tokenizer] and
    [self.sharded_model] are not assigned by [__init__]: they are absent
    ([None] here) until [ensure_shard] assigns them.  [trace] is a ghost
    field, the call counter a test double would keep. *)
Record engine := {
  self_shard : option Shard;
  self_request_id : option string;
  self_past_tokens : option ndarray;
  self_use_llama_tokenizer : bool;
  self_tokenizer : option tokenizer_handle;
  self_sharded_model : option model_handle;
  trace : list event
}.

(** [__init__]; the flag stands for the USE_LLAMA_TOKENIZER variable. *)
Definition init (use_llama : bool) : engine := {|
  self_shard := None;
  self_request_id := None;
  self_past_tokens := None;
  self_use_llama_tokenizer := use_llama;
  self_tokenizer := None;
  self_sharded_model := None;
  trace := []
|}.

Definition with_shard (v : option Shard) (s : engine) : engine :=
  {| self_shard := v; self_request_id := self_request_id s;
     self_past_tokens := self_past_tokens s;
     self_use_llama_tokenizer := self_use_llama_tokenizer s;
     self_tokenizer := self_tokenizer s;
     self_sharded_model := self_sharded_model s; trace := trace s |}.

Definition with_request_id (v : option string) (s : engine) : engine :=
  {| self_shard := self_shard s; self_request_id := v;
     self_past_tokens := self_past_tokens s;
     self_use_llama_tokenizer := self_use_llama_tokenizer s;
     self_tokenizer := self_tokenizer s;
     self_sharded_model := self_sharded_model s; trace := trace s |}.

Definition with_past_tokens (v : option ndarray) (s : engine) : engine :=
  {| self_shard := self_shard s; self_request_id := self_request_id s;
     self_past_tokens := v;
     self_use_llama_tokenizer := self_use_llama_tokenizer s;
     self_tokenizer := self_tokenizer s;
     self_sharded_model := self_sharded_model s; trace := trace s |}.

Definition with_tokenizer (v : option tokenizer_handle) (s : engine) : engine :=
  {| self_shard := self_shard s; self_request_id := self_request_id s;
     self_past_tokens := self_past_tokens s;
     self_use_llama_tokenizer := self_use_llama_tokenizer s;
     self_tokenizer := v;
     self_sharded_model := self_sharded_model s; trace := trace s |}.

Definition with_sharded_model (v : option model_handle) (s : engine) : engine :=
  {| self_shard := self_shard s; self_request_id := self_request_id s;
     self_past_tokens := self_past_tokens s;
     self_use_llama_tokenizer := self_use_llama_tokenizer s;
     self_tokenizer := self_tokenizer s;
     self_sharded_model := v; trace := trace s |}.

Definition with_event (ev : event) (s : engine) : engine :=
  {| self_shard := self_shard s; self_request_id := self_request_id s;
     self_past_tokens := self_past_tokens s;
     self_use_llama_tokenizer := self_use_llama_tokenizer s;
     self_tokenizer := self_tokenizer s;
     self_sharded_model := self_sharded_model s; trace := trace s ++ [ev] |}.

(** ** The method monad *)

(** A method body: it returns or raises, and in both cases hands back the
    engine with the attribute writes made so far. *)
Definition M (A : Type) : Type := engine -> result A * engine.

#[global] Instance Monad_M : Monad M := {|
  ret := fun A (a : A) (s : engine) => (Ok a, s);
  bind := fun A B (m : M A) (k : A -> M B) (s : engine) =>
    match m s with
    | (Ok a, s') => k a s'
    | (Raise e, s') => (Raise e, s')
    end
|}.

Definition self : M engine := fun s => (Ok s, s).
Definition assign (f : engine -> engine) : M unit := fun s => (Ok tt, f s).
Definition raise {A} (e : exn) : M A := fun s => (Raise e, s).

(** A call to a collaborator: logged when made, whatever its outcome. *)
Definition call {A} (ev : event) (r : result A) : M A :=
  fun s => (r, with_event ev s).

(** [loop.run_in_executor(self.executor, f)]: the single worker runs [f] to
    completion and the awaiting coroutine receives its value or exception. *)
Definition run_in_executor {A} (f : M A) : M A := f.

(** Reading an attribute that [__init__] did not create. *)
Definition getattr {A} (field : engine -> option A) : M A :=
  s <- self ;;
  match field s with
  | Some v => ret v
  | None => raise AttributeError
  end.

(** ** Collaborators *)

(** What the imported functions answer during one call of a method.  Each
    may raise; none is defined in this repository. *)
Record collaborators := {
  shard_downloader_ensure_shard : Shard -> string -> result path;
  load_model_config : path -> result config;
  llama3_tokenizer : path -> result tokenizer_handle;
  _resolve_tokenizer : path -> result tokenizer_handle;
  ShardedLlamaModel : config -> Shard -> result model_handle;
  load_model_weights_torchtune : path -> Shard -> model_handle -> result unit;
  generate : model_handle -> option ndarray -> option ndarray ->
             result (option ndarray * option ndarray);
  tt_sample : ndarray -> Q -> Z -> result ndarray
}.

Definition TEMP : Q := 6 # 10.
Definition TOP_K : Z := 25.

(** [self.__class__.__name__] *)
Definition class_name : string := "TorchDynamicShardInferenceEngine"%string.

(** ** ensure_shard *)

Definition ensure_shard (c : collaborators) (shard : Shard) : M unit :=
  s <- self ;;
  if shard_eqb (self_shard s) shard then ret tt
  else
    assign (with_shard (Some shard)) ;;
    model_path <- call (EvDownload shard class_name)
                       (shard_downloader_ensure_shard c shard class_name) ;;
    let config_path := (model_path ++ "/config.json")%string in
    model_config <- call (EvLoadConfig config_path)
                         (load_model_config c config_path) ;;
    (if self_use_llama_tokenizer s then
       let llama_tokenizer_path :=
         (model_path ++ "/original/tokenizer.model")%string in
       t <- call (EvLlamaTokenizer llama_tokenizer_path)
                 (llama3_tokenizer c llama_tokenizer_path) ;;
       assign (with_tokenizer (Some t))
     else
       t <- call (EvResolveTokenizer model_path)
                 (_resolve_tokenizer c model_path) ;;
       assign (with_tokenizer (Some t))) ;;
    m <- run_in_executor
           (call (EvConstructModel model_config shard)
                 (ShardedLlamaModel c model_config shard)) ;;
    assign (with_sharded_model (Some m)) ;;
    sharded_model <- getattr self_sharded_model ;;
    run_in_executor
      (call (EvLoadWeights model_path shard sharded_model)
            (load_model_weights_torchtune c model_path shard sharded_model)).

(** ** Array operations the engine uses *)

(** [interleave rows la lb da db] joins, row by row, [rows] rows of [la]
    elements taken from [da] with rows of [lb] elements taken from [db]. *)
Fixpoint interleave (rows la lb : nat) (da db : list Q) : list Q :=
  match rows with
  | O => []
  | S r => firstn la da ++ firstn lb db
           ++ interleave r la lb (skipn la da) (skipn lb db)
  end.

(** [torch.cat((a, b), dim=-1)]: both tensors have the same rank, at least
    one, and agree on every dimension but the last. *)
Definition cat_last (a b : ndarray) : result ndarray :=
  match rev (shape a), rev (shape b) with
  | la :: ra, lb :: rb =>
      if list_eq_dec Nat.eq_dec ra rb
      then Ok {| shape := rev ra ++ [la + lb];
                 data := interleave (numel ra) la lb (data a) (data b) |}
      else Raise RuntimeError
  | _, _ => Raise RuntimeError
  end.

(** From each of [rows] consecutive blocks of [block] elements, the last
    [keep] elements. *)
Fixpoint last_of_blocks (rows block keep : nat) (d : list Q) : list Q :=
  match rows with
  | O => []
  | S r => skipn (block - keep) (firstn block d)
           ++ last_of_blocks r block keep (skipn block d)
  end.

(** [x[:, -1]]: the last entry along axis 1, for every index of axis 0. *)
Definition index_all_last (x : ndarray) : result ndarray :=
  match shape x with
  | d0 :: d1 :: rest =>
      if d1 =? 0 then Raise IndexError
      else Ok {| shape := d0 :: rest;
                 data := last_of_blocks d0 (d1 * numel rest) (numel rest)
                           (data x) |}
  | _ => Raise IndexError
  end.

Definition lift {A} (r : result A) : M A := fun s => (r, s).

(** ** sample *)

(** The body of [async def sample]: what [await self.sample(x, temp, top_k)]
    runs. *)
Definition sample (c : collaborators) (x : ndarray) (temp : Q) (top_k : Z)
  : M ndarray :=
  logits <- lift (index_all_last x) ;;
  let sample_wrapper :=
    call (EvSample logits temp top_k) (tt_sample c logits temp top_k) in
  run_in_executor sample_wrapper.

(** Calling an [async def] runs none of its body: the call expression
    evaluates to a coroutine object that holds the arguments. *)
Inductive coroutine :=
| SampleCoroutine (x : option ndarray) (temp : Q) (top_k : Z).

Inductive object :=
| Tensor (a : ndarray)
| Coroutine (co : coroutine).

(** The expression [self.sample(x, temp, top_k)], without [await]. *)
Definition sample_call (x : option ndarray) (temp : Q) (top_k : Z) : object :=
  Coroutine (SampleCoroutine x temp top_k).

Definition await (c : collaborators) (co : coroutine) : M ndarray :=
  match co with
  | SampleCoroutine (Some x) temp top_k => sample c x temp top_k
  | SampleCoroutine None _ _ => raise TypeError
  end.

(** [o.numpy(force=True)]: a tensor method; a coroutine object has no such
    attribute. *)
Definition numpy (o : object) : M ndarray :=
  match o with
  | Tensor a => ret a
  | Coroutine _ => raise AttributeError
  end.

(** ** infer_tensor *)

(** Truth value of [self.request_id]: [None] and the empty string are
    false. *)
Definition truthy (v : option string) : bool :=
  match v with
  | None => false
  | Some EmptyString => false
  | Some (String _ _) => true
  end.

Definition infer_wrapper (c : collaborators) (hidden_state : option ndarray)
  : M ndarray :=
  sharded_model <- getattr self_sharded_model ;;
  s <- self ;;
  let tokens :=
    match hidden_state with
    | Some _ => self_past_tokens s
    | None => None
    end in
  out <- call (EvGenerate sharded_model tokens hidden_state)
              (generate c sharded_model tokens hidden_state) ;;
  let '(model_hs, model_logits) := out in
  match model_hs with
  | Some hs => numpy (Tensor hs)
  | None =>
      let token := sample_call model_logits TEMP TOP_K in
      numpy token
  end.

(** The bookkeeping between [ensure_shard] and the submission of
    [infer_wrapper]; it yields the local variable [hidden_state]. *)
Definition dispatch (request_id : string) (input_data : ndarray)
  : M (option ndarray) :=
  s <- self ;;
  assign (with_request_id
            (if negb (truthy (self_request_id s)) then Some request_id
             else self_request_id s)) ;;
  if shape_eqb (shape input_data) [1; 1] then
    match self_past_tokens s with
    | Some past =>
        t <- lift (cat_last past input_data) ;;
        assign (with_past_tokens (Some t))
    | None => assign (with_past_tokens (Some input_data))
    end ;;
    ret None
  else if ndim input_data =? 3 then ret (Some input_data)
  else ret None.

Definition infer_tensor (c : collaborators) (request_id : string)
  (shard : Shard) (input_data : ndarray) : M ndarray :=
  ensure_shard c shard ;;
  hidden_state <- dispatch request_id input_data ;;
  run_in_executor (infer_wrapper c hidden_state).

(** ** Test doubles *)

Definition llama_1b : Shard :=
  {| model_id := "llama-3.2-1b"; start_layer := 0; end_layer := 15;
     n_layers := 16 |}.
Definition llama_3b : Shard :=
  {| model_id := "llama-3.2-3b"; start_layer := 0; end_layer := 27;
     n_layers := 28 |}.

(** Every collaborator succeeds; the model plays the given role. *)
Definition stub (role : option ndarray -> option ndarray ->
                        result (option ndarray * option ndarray))
  : collaborators := {|
  shard_downloader_ensure_shard := fun _ _ => Ok "/models/llama"%string;
  load_model_config := fun _ => Ok (Config 0);
  llama3_tokenizer := fun _ => Ok (Tokenizer 1);
  _resolve_tokenizer := fun _ => Ok (Tokenizer 0);
  ShardedLlamaModel := fun _ _ => Ok (Model 0);
  load_model_weights_torchtune := fun _ _ _ => Ok tt;
  generate := fun _ => role;
  tt_sample := fun _ _ _ => Ok (token 0)
|}.

Definition terminal_role (tokens hidden_state : option ndarray)
  : result (option ndarray * option ndarray) :=
  Ok (None, Some {| shape := [1; 1; 2]; data := [1; 2]%Q |}).

Definition interior_role (tokens hidden_state : option ndarray)
  : result (option ndarray * option ndarray) :=
  Ok (Some {| shape := [1; 1; 2]; data := [3; 4]%Q |}, None).

Definition failing_role (tokens hidden_state : option ndarray)
  : result (option ndarray * option ndarray) :=
  Raise InferenceFailure.

Definition offline (c : collaborators) : collaborators := {|
  shard_downloader_ensure_shard := fun _ _ => Raise ShardUnavailable;
  load_model_config := load_model_config c;
  llama3_tokenizer := llama3_tokenizer c;
  _resolve_tokenizer := _resolve_tokenizer c;
  ShardedLlamaModel := ShardedLlamaModel c;
  load_model_weights_torchtune := load_model_weights_torchtune c;
  generate := generate c;
  tt_sample := tt_sample c
|}.

(** ** The sampling primitive *)

(** Modelled from the spec: [torchtune.generation.sample], imported as
    [tt_sample], is not part of this repository.  Sections 4.5 and 6 of the
    specification describe it as a pure function from logits, temperature
    and top-K to a token id tensor that "applies temperature scaling then
    restricts candidate selection to the top-K highest-probability
    vocabulary entries before drawing one token".  Scores are exact
    rationals here; [draw] stands for the random draw among the candidates,
    given as (token id, scaled score) pairs in decreasing order of score. *)
Definition scale (temp : Q) (row : list Q) : list Q :=
  map (fun l => (l / temp)%Q) row.

Definition enumerate (row : list Q) : list (nat * Q) :=
  combine (seq 0 (length row)) row.

Fixpoint insert_desc (x : nat * Q) (l : list (nat * Q)) : list (nat * Q) :=
  match l with
  | [] => [x]
  | y :: rest =>
      if Qle_bool (snd y) (snd x) then x :: l else y :: insert_desc x rest
  end.

Definition sort_desc (l : list (nat * Q)) : list (nat * Q) :=
  fold_right insert_desc [] l.

(** Modelled from the spec: the top-K highest entries of a row, as
    (token id, score) pairs, best first; ties keep the lower id first. *)
Definition top_k_entries (top_k : Z) (row : list Q) : list (nat * Q) :=
  firstn (Z.to_nat top_k) (sort_desc (enumerate row)).

(** Modelled from the spec: scale, restrict, draw. *)
Definition sample_row (draw : list (nat * Q) -> nat) (temp : Q) (top_k : Z)
  (row : list Q) : Q :=
  inject_Z (Z.of_nat (draw (top_k_entries top_k (scale temp row)))).

Fixpoint rows_of (n width : nat) (d : list Q) : list (list Q) :=
  match n with
  | O => []
  | S n' => firstn width d :: rows_of n' width (skipn width d)
  end.

(** Modelled from the spec: the primitive itself, applied to every row of
    logits along the last axis; it yields one token id per row. *)
Definition tt_sample_model (draw : list (nat * Q) -> nat) (logits : ndarray)
  (temp : Q) (top_k : Z) : ndarray :=
  let vocab := last (shape logits) 1 in
  let lead := removelast (shape logits) in
  {| shape := lead ++ [1];
     data := map (sample_row draw temp top_k)
               (rows_of (numel lead) vocab (data logits)) |}.

(** A draw that takes the first candidate. *)
Definition draw_first (candidates : list (nat * Q)) : nat :=
  match candidates with
  | (id, _) :: _ => id
  | [] => 0
  end.

(** A draw that takes the last candidate. *)
Definition draw_last (candidates : list (nat * Q)) : nat :=
  fst (last candidates (0, 0%Q)).

(** Collaborators whose sampling primitive is the model above. *)
Definition sampling (draw : list (nat * Q) -> nat) : collaborators := {|
  shard_downloader_ensure_shard := fun _ _ => Ok "/models/llama"%string;
  load_model_config := fun _ => Ok (Config 0);
  llama3_tokenizer := fun _ => Ok (Tokenizer 1);
  _resolve_tokenizer := fun _ => Ok (Tokenizer 0);
  ShardedLlamaModel := fun _ _ => Ok (Model 0);
  load_model_weights_torchtune := fun _ _ _ => Ok tt;
  generate := fun _ => terminal_role;
  tt_sample := fun logits temp top_k =>
                 Ok (tt_sample_model draw logits temp top_k)
|}.

(** The entry [x[i, j, k]] of a rank-3 array. *)
Definition entry (x : ndarray) (i j k : nat) : Q :=
  match shape x with
  | [_; d1; d2] => nth ((i * d1 + j) * d2 + k) (data x) 0%Q
  | _ => 0%Q
  end.

(** The logits [x[i, -1, :]] cut out of the row-major data of an array of
    shape (b, s, v). *)
Definition final_row (s v : nat) (d : list Q) (i : nat) : list Q :=
  firstn v (skipn (i * (s * v) + (s - 1) * v) d).

(** The id the top-1 restriction leaves: the first entry of greatest
    score. *)
Definition best (row : list Q) : nat :=
  match sort_desc (enumerate row) with
  | h :: _ => fst h
  | [] => 0
  end.

(** Logits of shape (2, 2, 3): two sequences, two positions, three ids. *)
Definition logits_223 : ndarray :=
  {| shape := [2; 2; 3];
     data := [9; 1; 1;  1; 5; 2;   7; 7; 7;  (-1); (-3); 4]%Q |}.

(** ** Specification vocabulary *)

(** The tokenizer constructor the static switch selects. *)
Definition make_tokenizer (c : collaborators) (use_llama : bool)
  (model_path : path) : result tokenizer_handle :=
  if use_llama
  then llama3_tokenizer c (model_path ++ "/original/tokenizer.model")%string
  else _resolve_tokenizer c model_path.

Definition tokenizer_event (use_llama : bool) (model_path : path) : event :=
  if use_llama
  then EvLlamaTokenizer (model_path ++ "/original/tokenizer.model")%string
  else EvResolveTokenizer model_path.

(** How often the downloader has been called. *)
Definition downloads (s : engine) : nat :=
  length (filter (fun ev => match ev with
                            | EvDownload _ _ => true
                            | _ => false
                            end) (trace s)).

(** The accumulated token ids, [None] read as the empty sequence. *)
Definition tokens_of (s : engine) : list Q :=
  match self_past_tokens s with
  | Some a => data a
  | None => []
  end.

(** [self.past_tokens] is [None] or a tensor of shape (1, n) holding n
    ids. *)
Definition past_ok (s : engine) : Prop :=
  match self_past_tokens s with
  | Some a => shape a = [1; length (data a)]
  | None => True
  end.

(** The value [infer_tensor] assigns to [self.request_id]. *)
Definition recorded (request_id : string) (s : engine) : option string :=
  if negb (truthy (self_request_id s)) then Some request_id
  else self_request_id s.

(** One [infer_tensor] call as its caller issues it. *)
Record request := {
  req_collaborators : collaborators;
  req_id : string;
  req_shard : Shard;
  req_input : ndarray
}.

(** The engine after the call, whether it returned or raised. *)
Definition serve (q : request) (s : engine) : engine :=
  snd (infer_tensor (req_collaborators q) (req_id q) (req_shard q)
         (req_input q) s).

Definition session (qs : list request) (s : engine) : engine :=
  fold_left (fun s q => serve q s) qs s.

(** [ensure_shard] returns normally in the call. *)
Definition ensured (q : request) (s : engine) : bool :=
  is_ok (fst (ensure_shard (req_collaborators q) (req_shard q) s)).

Fixpoint all_ensured (qs : list request) (s : engine) : bool :=
  match qs with
  | [] => true
  | q :: rest => ensured q s && all_ensured rest (serve q s)
  end.

(** ** encode and decode *)

(** The value of [tokens.tolist()]: a number for a 0-dimensional array, a
    list of such values, one per index of the first axis, otherwise. *)
#[warnings="-register-all"]
Inductive pylist :=
| PyNum (q : Q)
| PyList (items : list pylist).

Fixpoint tolist_from (sh : list nat) (d : list Q) : pylist :=
  match sh with
  | [] => PyNum (hd 0%Q d)
  | n :: rest => PyList (map (tolist_from rest) (rows_of n (numel rest) d))
  end.

Definition tolist (a : ndarray) : pylist := tolist_from (shape a) (data a).

(** What [tokenizer.encode] hands back: a Python list of ids, or an object
    that is not a list and is returned as it is. *)
Inductive encoded :=
| EncodedList (ids : list Q)
| EncodedArray (a : ndarray).

(** [torch.tensor(ids)] for a flat list of ids. *)
Definition tensor_of_list (ids : list Q) : ndarray :=
  {| shape := [length ids]; data := ids |}.

(** The two methods of the tokenizer object the engine calls. *)
Record tokenizer_ops := {
  tokenizer_encode : tokenizer_handle -> string -> result encoded;
  tokenizer_decode : tokenizer_handle -> pylist -> result string
}.

Definition encode (c : collaborators) (t : tokenizer_ops) (shard : Shard)
  (prompt : string) : M ndarray :=
  ensure_shard c shard ;;
  tokenizer <- getattr self_tokenizer ;;
  tokens <- run_in_executor (lift (tokenizer_encode t tokenizer prompt)) ;;
  match tokens with
  | EncodedList ids => ret (tensor_of_list ids)
  | EncodedArray a => ret a
  end.

Definition decode (c : collaborators) (t : tokenizer_ops) (shard : Shard)
  (tokens : ndarray) : M string :=
  ensure_shard c shard ;;
  tokenizer <- getattr self_tokenizer ;;
  run_in_executor (lift (tokenizer_decode t tokenizer (tolist tokens))).

(** [__init__] as far as the engine state goes: [use_llama_tokenizer] is
    [os.environ.get("USE_LLAMA_TOKENIZER", False)], later used as a
    condition, so what counts is the truth value of the variable. *)
Definition init_from_env (USE_LLAMA_TOKENIZER : option string) : engine :=
  init (truthy USE_LLAMA_TOKENIZER).

(** ** Sequences of method calls *)

(** One call of a public method of the engine. *)
Inductive op :=
| CallEnsureShard (c : collaborators) (shard : Shard)
| CallInferTensor (c : collaborators) (request_id : string) (shard : Shard)
    (input_data : ndarray)
| CallEncode (c : collaborators) (t : tokenizer_ops) (shard : Shard)
    (prompt : string)
| CallDecode (c : collaborators) (t : tokenizer_ops) (shard : Shard)
    (tokens : ndarray)
| CallSample (c : collaborators) (x : ndarray) (temp : Q) (top_k : Z).

(** The engine after the call, whether it returned or raised. *)
Definition after (o : op) (s : engine) : engine :=
  match o with
  | CallEnsureShard c shard => snd (ensure_shard c shard s)
  | CallInferTensor c request_id shard input_data =>
      snd (infer_tensor c request_id shard input_data s)
  | CallEncode c t shard prompt => snd (encode c t shard prompt s)
  | CallDecode c t shard tokens => snd (decode c t shard tokens s)
  | CallSample c x temp top_k => snd (sample c x temp top_k s)
  end.

Definition run (ops : list op) (s : engine) : engine :=
  fold_left (fun s o => after o s) ops s.

(** The descriptor a call asks for; [sample] asks for none. *)
Definition op_shard (o : op) : option Shard :=
  match o with
  | CallEnsureShard _ shard | CallInferTensor _ _ shard _
  | CallEncode _ _ shard _ | CallDecode _ _ shard _ => Some shard
  | CallSample _ _ _ _ => None
  end.

(** How often the requested descriptor differs from the one requested
    before it, the stored descriptor coming first. *)
Fixpoint switches (stored : option Shard) (ops : list op) : nat :=
  match ops with
  | [] => 0
  | o :: rest =>
      match op_shard o with
      | Some shard =>
          (if shard_eqb stored shard then 0 else 1)
          + switches (Some shard) rest
      | None => switches stored rest
      end
  end.

(** How often the model has been asked for a forward pass. *)
Definition forward_passes (s : engine) : nat :=
  length (filter (fun ev => match ev with
                            | EvGenerate _ _ _ => true
                            | _ => false
                            end) (trace s)).

Definition is_infer (o : op) : bool :=
  match o with
  | CallInferTensor _ _ _ _ => true
  | _ => false
  end.

(** The arrays a call passes in are well formed. *)
Definition op_well_formed (o : op) : Prop :=
  match o with
  | CallInferTensor _ _ _ input_data => well_formed input_data
  | _ => True
  end.

(** The ids a call contributes to the accumulated sequence once it is past
    [ensure_shard]. *)
Definition op_tokens (o : op) : list Q :=
  match o with
  | CallInferTensor _ _ _ input_data =>
      if shape_eqb (shape input_data) [1; 1] then data input_data else []
  | _ => []
  end.

(** Every [infer_tensor] call of the sequence gets past [ensure_shard]. *)
Fixpoint all_pass (ops : list op) (s : engine) : bool :=
  match ops with
  | [] => true
  | o :: rest =>
      match o with
      | CallInferTensor c _ shard _ => is_ok (fst (ensure_shard c shard s))
      | _ => true
      end && all_pass rest (after o s)
  end.

(** Handles are stored in the order descriptor, tokenizer, model. *)
Definition handles_ordered (s : engine) : Prop :=
  (self_sharded_model s <> None -> self_tokenizer s <> None)
  /\ (self_tokenizer s <> None -> self_shard s <> None).

(** A tokenizer double: ids are character codes. *)
Fixpoint codes (p : string) : list Q :=
  match p with
  | EmptyString => []
  | String a rest => inject_Z (Z.of_nat (Ascii.nat_of_ascii a)) :: codes rest
  end.

Fixpoint chars (l : list pylist) : option string :=
  match l with
  | [] => Some EmptyString
  | PyNum q :: rest =>
      match chars rest with
      | Some p =>
          Some (String (Ascii.ascii_of_nat (Z.to_nat (Qnum q))) p)
      | None => None
      end
  | PyList _ :: _ => None
  end.

Definition char_tokenizer : tokenizer_ops := {|
  tokenizer_encode := fun _ prompt => Ok (EncodedList (codes prompt));
  tokenizer_decode := fun _ l =>
    match l with
    | PyList items =>
        match chars items with
        | Some p => Ok p
        | None => Raise TokenizationFailure
        end
    | PyNum _ => Raise TokenizationFailure
    end
|}.

(** Model construction fails, everything before it succeeds. *)
Definition no_model (c : collaborators) : collaborators := {|
  shard_downloader_ensure_shard := shard_downloader_ensure_shard c;
  load_model_config := load_model_config c;
  llama3_tokenizer := llama3_tokenizer c;
  _resolve_tokenizer := _resolve_tokenizer c;
  ShardedLlamaModel := fun _ _ => Raise ShardLoadFailure;
  load_model_weights_torchtune := load_model_weights_torchtune c;
  generate := generate c;
  tt_sample := tt_sample c
|}.

(** Weight loading fails, everything before it succeeds. *)
Definition no_weights (c : collaborators) : collaborators := {|
  shard_downloader_ensure_shard := shard_downloader_ensure_shard c;
  load_model_config := load_model_config c;
  llama3_tokenizer := llama3_tokenizer c;
  _resolve_tokenizer := _resolve_tokenizer c;
  ShardedLlamaModel := ShardedLlamaModel c;
  load_model_weights_torchtune := fun _ _ _ => Raise ShardLoadFailure;
  generate := generate c;
  tt_sample := tt_sample c
|}.

(** The attributes [ensure_shard] owns are the same in both states. *)
Definition same_handles (s s' : engine) : Prop :=
  self_shard s' = self_shard s
  /\ self_tokenizer s' = self_tokenizer s
  /\ self_sharded_model s' = self_sharded_model s
  /\ self_use_llama_tokenizer s' = self_use_llama_tokenizer s.

(** The call returns rather than raises. *)
Definition returns (o : op) (s : engine) : bool :=
  match o with
  | CallEnsureShard c shard => is_ok (fst (ensure_shard c shard s))
  | CallInferTensor c request_id shard input_data =>
      is_ok (fst (infer_tensor c request_id shard input_data s))
  | CallEncode c t shard prompt => is_ok (fst (encode c t shard prompt s))
  | CallDecode c t shard tokens => is_ok (fst (decode c t shard tokens s))
  | CallSample c x temp top_k => is_ok (fst (sample c x temp top_k s))
  end.

(** * Properties *)

(** ** Proof support *)

Ltac run_method :=
  cbn [bind ret Monad_M self assign raise call lift getattr run_in_executor
       fst snd with_shard with_request_id with_past_tokens with_tokenizer
       with_sharded_model with_event self_shard self_request_id
       self_past_tokens self_use_llama_tokenizer self_tokenizer
       self_sharded_model trace numpy sample_call].

Lemma shard_eqb_true stored shard :
  shard_eqb stored shard = true <-> stored = Some shard.
Proof.
  unfold shard_eqb. destruct stored as [d|].
  - destruct (Shard_eq_dec d shard); split; congruence.
  - split; discriminate.
Qed.

Lemma shard_eqb_false stored shard :
  shard_eqb stored shard = false <-> stored <> Some shard.
Proof.
  rewrite <- shard_eqb_true. destruct (shard_eqb stored shard); split;
    congruence.
Qed.

(** The fast path: nothing is called and nothing is written. *)
Lemma ensure_shard_same c shard s :
  self_shard s = Some shard -> ensure_shard c shard s = (Ok tt, s).
Proof.
  intros H. unfold ensure_shard. run_method.
  apply shard_eqb_true in H. now rewrite H.
Qed.

(** The slow path, step by step. *)
Lemma ensure_shard_reload c shard s :
  self_shard s <> Some shard ->
  ensure_shard c shard s =
  let s0 := with_event (EvDownload shard class_name)
              (with_shard (Some shard) s) in
  match shard_downloader_ensure_shard c shard class_name with
  | Raise e => (Raise e, s0)
  | Ok model_path =>
    let s1 := with_event (EvLoadConfig (model_path ++ "/config.json")%string)
                s0 in
    match load_model_config c (model_path ++ "/config.json")%string with
    | Raise e => (Raise e, s1)
    | Ok model_config =>
      let use_llama := self_use_llama_tokenizer s in
      let s2 := with_event (tokenizer_event use_llama model_path) s1 in
      match make_tokenizer c use_llama model_path with
      | Raise e => (Raise e, s2)
      | Ok t =>
        let s3 := with_event (EvConstructModel model_config shard)
                    (with_tokenizer (Some t) s2) in
        match ShardedLlamaModel c model_config shard with
        | Raise e => (Raise e, s3)
        | Ok m =>
          (load_model_weights_torchtune c model_path shard m,
           with_event (EvLoadWeights model_path shard m)
             (with_sharded_model (Some m) s3))
        end
      end
    end
  end.
Proof.
  intros H. apply shard_eqb_false in H.
  unfold ensure_shard, make_tokenizer, tokenizer_event. run_method.
  rewrite H. run_method.
  destruct (shard_downloader_ensure_shard c shard class_name) as [p|e];
    [|reflexivity].
  run_method.
  destruct (load_model_config c (p ++ "/config.json")%string) as [cfg|e];
    [|reflexivity].
  destruct (self_use_llama_tokenizer s); run_method.
  - destruct (llama3_tokenizer c _) as [t|e]; [|reflexivity]. run_method.
    destruct (ShardedLlamaModel c cfg shard) as [m|e]; [|reflexivity].
    run_method. now destruct (load_model_weights_torchtune c p shard m).
  - destruct (_resolve_tokenizer c _) as [t|e]; [|reflexivity]. run_method.
    destruct (ShardedLlamaModel c cfg shard) as [m|e]; [|reflexivity].
    run_method. now destruct (load_model_weights_torchtune c p shard m).
Qed.

Lemma ensure_shard_stores_descriptor c shard s :
  self_shard (snd (ensure_shard c shard s)) = Some shard.
Proof.
  destruct (Shard_eq_dec' (self_shard s) shard) as [H|H].
  - now rewrite ensure_shard_same.
  - rewrite ensure_shard_reload by assumption. cbv zeta.
    repeat match goal with
           | |- context [match ?r with Ok _ => _ | Raise _ => _ end] =>
               destruct r
           end; reflexivity.
Qed.

Ltac ensure_cases c shard s :=
  let H := fresh "Hshard" in
  destruct (Shard_eq_dec' (self_shard s) shard) as [H|H];
  [ rewrite (ensure_shard_same c shard s H)
  | rewrite (ensure_shard_reload c shard s H); cbv zeta;
    repeat match goal with
           | |- context [match ?r with Ok _ => _ | Raise _ => _ end] =>
               destruct r
           end ].

Lemma ensure_shard_keeps_session c shard s :
  let s' := snd (ensure_shard c shard s) in
  self_request_id s' = self_request_id s
  /\ self_past_tokens s' = self_past_tokens s
  /\ self_use_llama_tokenizer s' = self_use_llama_tokenizer s.
Proof. ensure_cases c shard s; repeat split. Qed.

Lemma app_cons_neq {A} (l rest : list A) (x : A) : l ++ x :: rest <> l.
Proof.
  intros H. apply (f_equal (@length A)) in H.
  rewrite length_app in H. simpl in H. lia.
Qed.

Lemma ensure_shard_reload_calls_downloader c shard s :
  self_shard s <> Some shard ->
  exists rest,
    trace (snd (ensure_shard c shard s))
    = trace s ++ EvDownload shard class_name :: rest.
Proof.
  intros H. rewrite ensure_shard_reload by assumption. cbv zeta.
  repeat match goal with
         | |- context [match ?r with Ok _ => _ | Raise _ => _ end] =>
             destruct r
         end; run_method; repeat rewrite <- app_assoc; simpl;
    eexists; reflexivity.
Qed.

(** ** Shard State Manager *)

(** C5: [ensure_shard] reloads if and only if the requested descriptor
    differs from the stored one, [None] included.  A reload starts with the
    downloader call and, when every collaborator succeeds, makes exactly the
    five collaborator calls in order; with an unchanged descriptor the call
    returns at once, and a second call with the same descriptor makes no
    collaborator call and writes nothing, whatever the first one did. *)
Theorem ensure_shard_idempotent (c c' : collaborators) (shard : Shard)
  (s : engine) :
  let s' := snd (ensure_shard c shard s) in
  (trace s' <> trace s <-> self_shard s <> Some shard)
  /\ (self_shard s = Some shard -> ensure_shard c shard s = (Ok tt, s))
  /\ (self_shard s <> Some shard ->
      exists rest, trace s' = trace s ++ EvDownload shard class_name :: rest)
  /\ (self_shard s <> Some shard ->
      forall model_path model_config t m,
        shard_downloader_ensure_shard c shard class_name = Ok model_path ->
        load_model_config c (model_path ++ "/config.json")%string
          = Ok model_config ->
        make_tokenizer c (self_use_llama_tokenizer s) model_path = Ok t ->
        ShardedLlamaModel c model_config shard = Ok m ->
        trace s' = trace s ++
          [EvDownload shard class_name;
           EvLoadConfig (model_path ++ "/config.json")%string;
           tokenizer_event (self_use_llama_tokenizer s) model_path;
           EvConstructModel model_config shard;
           EvLoadWeights model_path shard m])
  /\ ensure_shard c' shard s' = (Ok tt, s').
Proof.
  intros s'. subst s'. repeat split.
  - intros Hneq Heq. apply Hneq. now rewrite ensure_shard_same.
  - intros Hne Heq.
    destruct (ensure_shard_reload_calls_downloader c shard s Hne) as [r Hr].
    rewrite Hr in Heq. now apply app_cons_neq in Heq.
  - apply ensure_shard_same.
  - apply ensure_shard_reload_calls_downloader.
  - intros Hne p cfg t m Hp Hcfg Ht Hm.
    rewrite ensure_shard_reload by assumption. cbv zeta.
    rewrite Hp, Hcfg, Ht, Hm. run_method.
    repeat rewrite <- app_assoc. reflexivity.
  - apply ensure_shard_same. apply ensure_shard_stores_descriptor.
Qed.

Lemma ensure_shard_idempotent_witness :
  trace (snd (ensure_shard (stub interior_role) llama_1b (init false)))
  = [EvDownload llama_1b class_name;
     EvLoadConfig "/models/llama/config.json"%string;
     EvResolveTokenizer "/models/llama"%string;
     EvConstructModel (Config 0) llama_1b;
     EvLoadWeights "/models/llama"%string llama_1b (Model 0)]
  /\ ensure_shard (offline (stub interior_role)) llama_1b
       (snd (ensure_shard (stub interior_role) llama_1b (init false)))
     = (Ok tt, snd (ensure_shard (stub interior_role) llama_1b (init false))).
Proof.
  pose proof (ensure_shard_idempotent (stub interior_role)
                (offline (stub interior_role)) llama_1b (init false))
    as (_ & _ & _ & Hfull & Hsecond).
  split.
  - assert (Hne : self_shard (init false) <> Some llama_1b) by discriminate.
    exact (Hfull Hne "/models/llama"%string (Config 0) (Tokenizer 0)
             (Model 0) eq_refl eq_refl eq_refl eq_refl).
  - exact Hsecond.
Defined.

(** Three inference steps, the first on one descriptor and the next two on
    another: the downloader is called once per descriptor. *)
Example switch_descriptor_reloads_once :
  downloads
    (session
       [ {| req_collaborators := stub interior_role; req_id := "r";
            req_shard := llama_1b; req_input := token 7 |};
         {| req_collaborators := stub interior_role; req_id := "r";
            req_shard := llama_3b; req_input := token 8 |};
         {| req_collaborators := stub interior_role; req_id := "r";
            req_shard := llama_3b; req_input := token 9 |} ]
       (init false))
  = 2.
Proof. reflexivity. Qed.

(** C1, as the code has it: the requested descriptor is stored before the
    first load step and stays stored whatever happens next; the tokenizer
    handle is replaced once download, configuration load and tokenizer
    construction have succeeded, the model handle once model construction has
    succeeded too.  A failure of one of the first three steps leaves the
    previous tokenizer and model handles in place, a failure of model
    construction leaves the previous model next to the new tokenizer, and a
    failure of weight loading leaves both new handles stored. *)
Theorem ensure_shard_commit_order (c : collaborators) (shard : Shard)
  (s : engine) :
  self_shard s <> Some shard ->
  let r := fst (ensure_shard c shard s) in
  let s' := snd (ensure_shard c shard s) in
  let use_llama := self_use_llama_tokenizer s in
  self_shard s' = Some shard
  /\ (forall e,
        shard_downloader_ensure_shard c shard class_name = Raise e ->
        r = Raise e /\ self_tokenizer s' = self_tokenizer s
        /\ self_sharded_model s' = self_sharded_model s)
  /\ (forall model_path,
        shard_downloader_ensure_shard c shard class_name = Ok model_path ->
        (forall e,
           load_model_config c (model_path ++ "/config.json")%string
             = Raise e ->
           r = Raise e /\ self_tokenizer s' = self_tokenizer s
           /\ self_sharded_model s' = self_sharded_model s)
        /\ (forall model_config,
              load_model_config c (model_path ++ "/config.json")%string
                = Ok model_config ->
              (forall e,
                 make_tokenizer c use_llama model_path = Raise e ->
                 r = Raise e /\ self_tokenizer s' = self_tokenizer s
                 /\ self_sharded_model s' = self_sharded_model s)
              /\ (forall t,
                    make_tokenizer c use_llama model_path = Ok t ->
                    (forall e,
                       ShardedLlamaModel c model_config shard = Raise e ->
                       r = Raise e /\ self_tokenizer s' = Some t
                       /\ self_sharded_model s' = self_sharded_model s)
                    /\ (forall m,
                          ShardedLlamaModel c model_config shard = Ok m ->
                          r = load_model_weights_torchtune c model_path
                                shard m
                          /\ self_tokenizer s' = Some t
                          /\ self_sharded_model s' = Some m)))).
Proof.
  intros Hne r s' use_llama. subst r s' use_llama.
  rewrite ensure_shard_reload by assumption. cbv zeta.
  split.
  { repeat match goal with
           | |- context [match ?r with Ok _ => _ | Raise _ => _ end] =>
               destruct r
           end; reflexivity. }
  split.
  { intros e He. rewrite He. repeat split. }
  intros p Hp. rewrite Hp. split.
  { intros e He. rewrite He. repeat split. }
  intros cfg Hcfg. rewrite Hcfg. split.
  { intros e He. rewrite He. repeat split. }
  intros t Ht. rewrite Ht. split.
  { intros e He. rewrite He. repeat split. }
  intros m Hm. rewrite Hm. repeat split.
Qed.

Lemma ensure_shard_commit_order_witness :
  self_shard (snd (ensure_shard (offline (stub interior_role)) llama_1b
                     (init false))) = Some llama_1b
  /\ fst (ensure_shard (offline (stub interior_role)) llama_1b (init false))
     = Raise ShardUnavailable
  /\ self_tokenizer (snd (ensure_shard (offline (stub interior_role))
                            llama_1b (init false))) = None
  /\ self_sharded_model (snd (ensure_shard (offline (stub interior_role))
                                llama_1b (init false))) = None.
Proof.
  assert (Hne : self_shard (init false) <> Some llama_1b) by discriminate.
  pose proof (ensure_shard_commit_order (offline (stub interior_role))
                llama_1b (init false) Hne) as (Hd & Hfail & _).
  split; [exact Hd|]. apply (Hfail ShardUnavailable). reflexivity.
Defined.

(** C1, as stated, fails: when the downloader raises on a fresh engine the
    stored descriptor is no longer [None]. *)
Lemma ensure_shard_not_transactional :
  fst (ensure_shard (offline (stub interior_role)) llama_1b (init false))
  = Raise ShardUnavailable
  /\ self_shard (init false) = None
  /\ self_shard (snd (ensure_shard (offline (stub interior_role)) llama_1b
                        (init false))) <> None.
Proof. repeat split. discriminate. Qed.

(** ** Inference Step Dispatcher *)

Lemma infer_tensor_steps c request_id shard input_data s :
  infer_tensor c request_id shard input_data s =
  match ensure_shard c shard s with
  | (Raise e, s1) => (Raise e, s1)
  | (Ok _, s1) =>
      match dispatch request_id input_data s1 with
      | (Raise e, s2) => (Raise e, s2)
      | (Ok hidden_state, s2) => infer_wrapper c hidden_state s2
      end
  end.
Proof.
  unfold infer_tensor. run_method.
  destruct (ensure_shard c shard s) as [[[]|e] s1]; reflexivity.
Qed.

Lemma infer_wrapper_steps c hidden_state s :
  infer_wrapper c hidden_state s =
  match self_sharded_model s with
  | None => (Raise AttributeError, s)
  | Some m =>
      let tokens := match hidden_state with
                    | Some _ => self_past_tokens s
                    | None => None
                    end in
      let s' := with_event (EvGenerate m tokens hidden_state) s in
      match generate c m tokens hidden_state with
      | Raise e => (Raise e, s')
      | Ok (Some hs, _) => (Ok hs, s')
      | Ok (None, _) => (Raise AttributeError, s')
      end
  end.
Proof.
  unfold infer_wrapper. run_method.
  destruct (self_sharded_model s) as [m|]; [|reflexivity]. run_method.
  destruct (generate c m _ hidden_state) as [[[hs|] lg]|e]; reflexivity.
Qed.

(** The forward pass and the handling of its result write no attribute. *)
Lemma infer_wrapper_keeps_attributes c hidden_state s :
  let s' := snd (infer_wrapper c hidden_state s) in
  self_shard s' = self_shard s
  /\ self_request_id s' = self_request_id s
  /\ self_past_tokens s' = self_past_tokens s
  /\ self_sharded_model s' = self_sharded_model s.
Proof.
  rewrite infer_wrapper_steps.
  destruct (self_sharded_model s) as [m|] eqn:Hm; cbv zeta.
  - destruct (generate c m _ hidden_state) as [[[hs|] lg]|e];
      repeat split; assumption.
  - repeat split; assumption.
Qed.

Lemma cat_last_token (d : list Q) (t : Q) :
  cat_last {| shape := [1; length d]; data := d |} (token t)
  = Ok {| shape := [1; length d + 1]; data := d ++ [t] |}.
Proof.
  unfold cat_last. cbn [shape data rev app token].
  destruct (list_eq_dec Nat.eq_dec [1] [1]) as [_|Hn]; [|now elim Hn].
  cbn [numel fold_right Nat.mul Nat.add interleave].
  rewrite firstn_all. reflexivity.
Qed.

Lemma dispatch_token request_id t s :
  past_ok s ->
  dispatch request_id (token t) s =
  (Ok None,
   with_past_tokens
     (Some {| shape := [1; length (tokens_of s) + 1];
              data := tokens_of s ++ [t] |})
     (with_request_id (recorded request_id s) s)).
Proof.
  unfold past_ok, tokens_of, dispatch, recorded. intros Hok. run_method.
  cbn [token shape shape_eqb].
  destruct (list_eq_dec Nat.eq_dec [1; 1] [1; 1]) as [_|Hn]; [|now elim Hn].
  destruct (self_past_tokens s) as [[sh d]|]; run_method.
  - cbn [shape data] in Hok. subst sh. rewrite cat_last_token. reflexivity.
  - reflexivity.
Qed.

Lemma dispatch_other request_id input_data s :
  shape input_data <> [1; 1] ->
  dispatch request_id input_data s =
  (Ok (if ndim input_data =? 3 then Some input_data else None),
   with_request_id (recorded request_id s) s).
Proof.
  unfold dispatch, recorded, shape_eqb. intros Hne. run_method.
  destruct (list_eq_dec Nat.eq_dec (shape input_data) [1; 1]);
    [contradiction|].
  now destruct (ndim input_data =? 3).
Qed.

Lemma well_formed_token a :
  well_formed a -> shape a = [1; 1] -> exists t, a = token t.
Proof.
  destruct a as [sh d]. unfold well_formed. cbn [shape data]. intros Hwf ->.
  cbn in Hwf. destruct d as [|t [|? ?]]; try discriminate.
  now exists t.
Qed.

Lemma dispatch_request_id request_id input_data s :
  self_request_id (snd (dispatch request_id input_data s))
  = recorded request_id s.
Proof.
  unfold dispatch, recorded. run_method.
  destruct (shape_eqb (shape input_data) [1; 1]).
  - destruct (self_past_tokens s) as [past|]; run_method; [|reflexivity].
    destruct (cat_last past input_data); reflexivity.
  - destruct (ndim input_data =? 3); reflexivity.
Qed.

Lemma infer_tensor_request_id c request_id shard input_data s :
  self_request_id (snd (infer_tensor c request_id shard input_data s))
  = if is_ok (fst (ensure_shard c shard s)) then recorded request_id s
    else self_request_id s.
Proof.
  rewrite infer_tensor_steps.
  pose proof (ensure_shard_keeps_session c shard s) as (Hid & _).
  cbv zeta in Hid.
  destruct (ensure_shard c shard s) as [[u|e] s1]; cbn [fst snd is_ok] in *;
    [|assumption].
  pose proof (dispatch_request_id request_id input_data s1) as Hd.
  destruct (dispatch request_id input_data s1) as [[h|e] s2];
    cbn [fst snd] in *.
  - destruct (infer_wrapper_keeps_attributes c h s2) as (_ & Hw & _).
    cbv zeta in Hw. rewrite Hw, Hd. unfold recorded. now rewrite Hid.
  - rewrite Hd. unfold recorded. now rewrite Hid.
Qed.

Lemma truthy_nonempty r : r <> EmptyString -> truthy (Some r) = true.
Proof. destruct r; [congruence | reflexivity]. Qed.

(** C8, as the code has it: a call whose [ensure_shard] step returns
    records its identifier when none is recorded or the recorded one is the
    empty string; a recorded non-empty identifier survives every call,
    whatever identifier the call passes and however the call ends; a call
    whose [ensure_shard] step raises records nothing. *)
Theorem request_id_first_write_wins (c : collaborators) (request_id : string)
  (shard : Shard) (input_data : ndarray) (s : engine) :
  let s' := snd (infer_tensor c request_id shard input_data s) in
  (forall r, self_request_id s = Some r -> r <> EmptyString ->
             self_request_id s' = Some r)
  /\ (is_ok (fst (ensure_shard c shard s)) = true ->
      self_request_id s = None \/ self_request_id s = Some EmptyString ->
      self_request_id s' = Some request_id)
  /\ (is_ok (fst (ensure_shard c shard s)) = false ->
      self_request_id s' = self_request_id s).
Proof.
  cbv zeta. rewrite infer_tensor_request_id. unfold recorded.
  repeat split.
  - intros r Hr Hne. rewrite Hr, (truthy_nonempty r Hne).
    now destruct (is_ok _).
  - intros -> [Hr|Hr]; now rewrite Hr.
  - now intros ->.
Qed.

Lemma request_id_first_write_wins_witness :
  self_request_id
    (snd (infer_tensor (stub interior_role) "second" llama_1b (token 8)
            (snd (infer_tensor (stub interior_role) "first" llama_1b
                    (token 7) (init false)))))
  = Some "first"%string.
Proof.
  pose proof (request_id_first_write_wins (stub interior_role) "second"
                llama_1b (token 8)
                (snd (infer_tensor (stub interior_role) "first" llama_1b
                        (token 7) (init false)))) as (Hkeep & _ & _).
  apply Hkeep; [reflexivity | discriminate].
Defined.

(** C8, as stated, fails: an empty identifier recorded by the first call of
    a session is replaced by the identifier of the second call. *)
Lemma request_id_empty_overwritten :
  let first := snd (infer_tensor (stub interior_role) EmptyString llama_1b
                      (token 7) (init false)) in
  let second := snd (infer_tensor (stub interior_role) "b" llama_1b (token 8)
                       first) in
  self_request_id first = Some EmptyString
  /\ self_request_id second = Some "b"%string
  /\ self_request_id second <> self_request_id first.
Proof. repeat split. discriminate. Qed.

Lemma infer_wrapper_arguments c hidden_state s m :
  self_sharded_model s = Some m ->
  trace (snd (infer_wrapper c hidden_state s))
  = trace s ++ [EvGenerate m
                  match hidden_state with
                  | Some _ => self_past_tokens s
                  | None => None
                  end hidden_state].
Proof.
  intros Hm. rewrite infer_wrapper_steps, Hm. cbv zeta.
  now destruct (generate c m _ hidden_state) as [[[hs|] lg]|e].
Qed.

Lemma infer_wrapper_logits c hidden_state s m tokens logits :
  self_sharded_model s = Some m ->
  tokens = match hidden_state with
           | Some _ => self_past_tokens s
           | None => None
           end ->
  generate c m tokens hidden_state = Ok (None, logits) ->
  fst (infer_wrapper c hidden_state s) = Raise AttributeError.
Proof.
  intros Hm -> Hg. rewrite infer_wrapper_steps, Hm. cbv zeta.
  now rewrite Hg.
Qed.

(** Whenever the model answers with logits the call raises. *)
Lemma infer_tensor_logits_raise c request_id shard input_data s u s1
  hidden_state s2 m tokens logits :
  ensure_shard c shard s = (Ok u, s1) ->
  dispatch request_id input_data s1 = (Ok hidden_state, s2) ->
  self_sharded_model s2 = Some m ->
  tokens = match hidden_state with
           | Some _ => self_past_tokens s2
           | None => None
           end ->
  generate c m tokens hidden_state = Ok (None, logits) ->
  fst (infer_tensor c request_id shard input_data s) = Raise AttributeError.
Proof.
  intros Hens Hd Hm Htok Hgen. rewrite infer_tensor_steps, Hens, Hd.
  exact (infer_wrapper_logits c hidden_state s2 m tokens logits Hm Htok Hgen).
Qed.

(** Awaiting the coroutine is what would run the sampler. *)
Example awaited_sample_runs_primitive :
  match sample_call (Some logits_223) TEMP TOP_K with
  | Coroutine co => fst (await (sampling draw_first) co (init false))
  | Tensor a => Ok a
  end
  = Ok {| shape := [2; 1]; data := [1; 2]%Q |}.
Proof. reflexivity. Qed.

(** C2 is not what the code does.  The first token of a session is stored
    as the accumulated sequence, yet the forward pass receives neither
    tokens nor hidden state; a relayed hidden state that follows is passed
    together with the accumulated tokens. *)
Theorem token_mode_passes_no_tokens :
  let hs := {| shape := [1; 1; 2]; data := [3; 4]%Q |} in
  let first := snd (infer_tensor (stub interior_role) "r" llama_1b (token 7)
                      (init false)) in
  let second := snd (infer_tensor (stub interior_role) "r" llama_1b hs
                       first) in
  self_past_tokens first = Some (token 7)
  /\ last (trace first) (EvLoadConfig EmptyString)
     = EvGenerate (Model 0) None None
  /\ last (trace second) (EvLoadConfig EmptyString)
     = EvGenerate (Model 0) (Some (token 7)) (Some hs).
Proof. repeat split. Qed.

(** C3 is not what the code does.  When the model returns logits the call
    raises AttributeError: [self.sample(...)] is not awaited, so the result
    handed to [.numpy] is a coroutine object and the sampling primitive is
    never called. *)
Theorem logits_are_never_sampled :
  let out := infer_tensor (stub terminal_role) "r" llama_1b (token 7)
               (init false) in
  fst out = Raise AttributeError
  /\ (forall logits temp top_k,
        ~ In (EvSample logits temp top_k) (trace (snd out))).
Proof.
  split; [reflexivity|].
  intros logits temp top_k Hin. cbn in Hin.
  repeat (destruct Hin as [Hin|Hin]; [discriminate Hin|]). exact Hin.
Qed.

(** ** Request Token State *)

Lemma tokens_of_ext s s' :
  self_past_tokens s' = self_past_tokens s ->
  tokens_of s' = tokens_of s /\ (past_ok s -> past_ok s').
Proof. unfold tokens_of, past_ok. now intros ->. Qed.

Lemma dispatch_token_tokens request_id t s :
  past_ok s ->
  let s' := snd (dispatch request_id (token t) s) in
  fst (dispatch request_id (token t) s) = Ok None
  /\ tokens_of s' = tokens_of s ++ [t]
  /\ past_ok s'
  /\ self_sharded_model s' = self_sharded_model s.
Proof.
  intros Hok. rewrite (dispatch_token request_id t s Hok).
  unfold tokens_of at 1, past_ok. cbn. rewrite length_app. cbn.
  repeat split.
Qed.

(** A single-token call once [ensure_shard] has returned. *)
Lemma infer_tensor_token c request_id shard t s :
  past_ok s ->
  is_ok (fst (ensure_shard c shard s)) = true ->
  let s1 := snd (ensure_shard c shard s) in
  let s2 := snd (dispatch request_id (token t) s1) in
  infer_tensor c request_id shard (token t) s = infer_wrapper c None s2
  /\ tokens_of s2 = tokens_of s ++ [t]
  /\ past_ok s2
  /\ self_sharded_model s2 = self_sharded_model s1.
Proof.
  intros Hok Hens. cbv zeta. rewrite infer_tensor_steps.
  pose proof (ensure_shard_keeps_session c shard s) as (_ & Hpast & _).
  cbv zeta in Hpast.
  destruct (ensure_shard c shard s) as [[u|e] s1]; cbn [fst snd is_ok] in *;
    [|discriminate].
  destruct (tokens_of_ext s s1 Hpast) as (Htok & Hok1).
  destruct (dispatch_token_tokens request_id t s1 (Hok1 Hok))
    as (Hd & Ht & Hok2 & Hm).
  cbv zeta in *.
  destruct (dispatch request_id (token t) s1) as [r s2]; cbn [fst snd] in *.
  subst r. rewrite Ht, Htok. repeat split; assumption.
Qed.

Lemma serve_token q t s :
  past_ok s -> ensured q s = true -> req_input q = token t ->
  tokens_of (serve q s) = tokens_of s ++ [t] /\ past_ok (serve q s).
Proof.
  unfold ensured, serve. intros Hok Hens ->.
  destruct (infer_tensor_token (req_collaborators q) (req_id q) (req_shard q)
              t s Hok Hens) as (Hrun & Ht & Hok2 & _).
  cbv zeta in *. rewrite Hrun.
  destruct (infer_wrapper_keeps_attributes (req_collaborators q) None
              (snd (dispatch (req_id q) (token t)
                      (snd (ensure_shard (req_collaborators q) (req_shard q)
                              s))))) as (_ & _ & Hpast & _).
  cbv zeta in Hpast. destruct (tokens_of_ext _ _ Hpast) as (Htok & Hok3).
  rewrite Htok. auto.
Qed.

(** Whatever the input and however the call ends, the accumulated ids are
    kept and at most extended. *)
Lemma serve_extends q s :
  past_ok s -> well_formed (req_input q) ->
  past_ok (serve q s)
  /\ exists suffix, tokens_of (serve q s) = tokens_of s ++ suffix.
Proof.
  intros Hok Hwf. unfold serve. rewrite infer_tensor_steps.
  pose proof (ensure_shard_keeps_session (req_collaborators q) (req_shard q)
                s) as (_ & Hpast & _).
  cbv zeta in Hpast.
  destruct (ensure_shard (req_collaborators q) (req_shard q) s)
    as [[u|e] s1]; cbn [fst snd] in *;
    destruct (tokens_of_ext s s1 Hpast) as (Htok & Hok1).
  2:{ split; [auto|]. exists []. now rewrite app_nil_r. }
  destruct (list_eq_dec Nat.eq_dec (shape (req_input q)) [1; 1]) as [Hs|Hs].
  - destruct (well_formed_token _ Hwf Hs) as [t ->].
    rewrite (dispatch_token (req_id q) t s1 (Hok1 Hok)).
    match goal with
    | |- context [infer_wrapper ?c ?h ?s2] =>
        destruct (infer_wrapper_keeps_attributes c h s2) as (_ & _ & Hw & _);
        cbv zeta in Hw; destruct (tokens_of_ext _ _ Hw) as (Htw & Hokw)
    end.
    rewrite Htw. split.
    + apply Hokw. unfold past_ok. cbn. rewrite length_app. reflexivity.
    + exists [t]. unfold tokens_of at 1. cbn. now rewrite Htok.
  - rewrite (dispatch_other (req_id q) (req_input q) s1 Hs).
    match goal with
    | |- context [infer_wrapper ?c ?h ?s2] =>
        destruct (infer_wrapper_keeps_attributes c h s2) as (_ & _ & Hw & _);
        cbv zeta in Hw; destruct (tokens_of_ext _ _ Hw) as (Htw & Hokw)
    end.
    rewrite Htw. split.
    + apply Hokw. apply Hok1 in Hok. exact Hok.
    + exists []. rewrite app_nil_r. exact Htok.
Qed.

Lemma session_tokens qs : forall ts s,
  past_ok s -> map req_input qs = map token ts -> all_ensured qs s = true ->
  tokens_of (session qs s) = tokens_of s ++ ts /\ past_ok (session qs s).
Proof.
  induction qs as [|q qs IH]; intros [|t ts] s Hok Hin Hens;
    try discriminate Hin.
  - cbn. now rewrite app_nil_r.
  - cbn in Hin, Hens. injection Hin as Hq Hqs.
    apply andb_prop in Hens as (Hens & Hrest).
    destruct (serve_token q t s Hok Hens Hq) as (Ht & Hok').
    destruct (IH ts (serve q s) Hok' Hqs Hrest) as (Hts & Hokn).
    cbn [session fold_left]. fold (session qs (serve q s)).
    rewrite Hts, Ht, <- app_assoc. auto.
Qed.

Lemma all_ensured_firstn qs : forall k s,
  all_ensured qs s = true -> all_ensured (firstn k qs) s = true.
Proof.
  induction qs as [|q qs IH]; intros [|k] s H; try reflexivity.
  cbn in *. apply andb_prop in H as (H1 & H2).
  now rewrite H1, IH.
Qed.

Lemma session_extends qs : forall s,
  past_ok s -> Forall (fun q => well_formed (req_input q)) qs ->
  exists suffix, tokens_of (session qs s) = tokens_of s ++ suffix.
Proof.
  induction qs as [|q qs IH]; intros s Hok Hwf.
  - exists []. cbn. now rewrite app_nil_r.
  - inversion Hwf as [|? ? Hq Hqs]; subst.
    destruct (serve_extends q s Hok Hq) as (Hok' & suf1 & H1).
    destruct (IH (serve q s) Hok' Hqs) as (suf2 & H2).
    exists (suf1 ++ suf2). cbn [session fold_left].
    fold (session qs (serve q s)). now rewrite H2, H1, app_assoc.
Qed.

(** C4: on a fresh engine, N consecutive calls that each pass one (1, 1)
    token and get past [ensure_shard] leave a (1, N) tensor holding the N
    tokens in call order; after the first k of them the engine holds the
    first k tokens.  Beyond that, no sequence of calls of any kind, failed
    or not, removes or reorders what has been accumulated. *)
Theorem token_accumulation (use_llama : bool) (qs : list request)
  (ts : list Q) :
  map req_input qs = map token ts ->
  all_ensured qs (init use_llama) = true ->
  let s := session qs (init use_llama) in
  tokens_of s = ts
  /\ length (tokens_of s) = length qs
  /\ (qs <> [] ->
      self_past_tokens s = Some {| shape := [1; length qs]; data := ts |})
  /\ (forall k, tokens_of (session (firstn k qs) (init use_llama))
                = firstn k (tokens_of s))
  /\ (forall (more : list request),
        Forall (fun q => well_formed (req_input q)) more ->
        exists suffix, tokens_of (session more s) = tokens_of s ++ suffix).
Proof.
  intros Hin Hens s.
  assert (Hinit : past_ok (init use_llama)) by exact I.
  destruct (session_tokens qs ts (init use_llama) Hinit Hin Hens)
    as (Hts & Hok).
  cbn [tokens_of init self_past_tokens app] in Hts. fold s in Hts, Hok.
  assert (Hlen : length ts = length qs).
  { apply (f_equal (@length ndarray)) in Hin.
    now rewrite !length_map in Hin. }
  repeat split.
  - exact Hts.
  - now rewrite Hts.
  - intros Hne. unfold tokens_of, past_ok in Hts, Hok.
    destruct (self_past_tokens s) as [[sh d]|]; cbn [data shape] in *.
    + subst d sh. now rewrite Hlen.
    + subst ts. destruct qs; [congruence | discriminate Hlen].
  - intros k. rewrite Hts.
    assert (Hk : map req_input (firstn k qs) = map token (firstn k ts)).
    { now rewrite <- !firstn_map, Hin. }
    destruct (session_tokens (firstn k qs) (firstn k ts) (init use_llama)
                Hinit Hk (all_ensured_firstn qs k _ Hens)) as (Hkt & _).
    exact Hkt.
  - intros more Hwf. now apply session_extends.
Qed.

Lemma token_accumulation_witness :
  tokens_of
    (session
       [ {| req_collaborators := stub terminal_role; req_id := "r";
            req_shard := llama_1b; req_input := token 7 |};
         {| req_collaborators := stub failing_role; req_id := "r";
            req_shard := llama_1b; req_input := token 8 |};
         {| req_collaborators := stub interior_role; req_id := "r";
            req_shard := llama_1b; req_input := token 9 |} ]
       (init false))
  = [7; 8; 9]%Q.
Proof.
  apply (token_accumulation false
           [ {| req_collaborators := stub terminal_role; req_id := "r";
                req_shard := llama_1b; req_input := token 7 |};
             {| req_collaborators := stub failing_role; req_id := "r";
                req_shard := llama_1b; req_input := token 8 |};
             {| req_collaborators := stub interior_role; req_id := "r";
                req_shard := llama_1b; req_input := token 9 |} ]
           [7; 8; 9]%Q); reflexivity.
Defined.

(** C10: in a single-token call that gets past [ensure_shard], the token is
    already part of [self.past_tokens] in the engine state with which the
    forward-pass work is submitted, and it is still there when the call
    ends, whatever the outcome; in particular when the forward pass raises,
    the call raises the same error and the token stays appended. *)
Theorem token_kept_when_forward_pass_raises (c : collaborators)
  (request_id : string) (shard : Shard) (t : Q) (s : engine) :
  past_ok s ->
  is_ok (fst (ensure_shard c shard s)) = true ->
  let s1 := snd (ensure_shard c shard s) in
  let submitted := snd (dispatch request_id (token t) s1) in
  let out := infer_tensor c request_id shard (token t) s in
  out = run_in_executor (infer_wrapper c None) submitted
  /\ tokens_of submitted = tokens_of s ++ [t]
  /\ tokens_of (snd out) = tokens_of s ++ [t]
  /\ (forall m e,
        self_sharded_model s1 = Some m ->
        (forall tokens, generate c m tokens None = Raise e) ->
        fst out = Raise e /\ tokens_of (snd out) = tokens_of s ++ [t]).
Proof.
  intros Hok Hens.
  destruct (infer_tensor_token c request_id shard t s Hok Hens)
    as (Hrun & Ht & Hok2 & Hm).
  cbv zeta in *. unfold run_in_executor. rewrite Hrun.
  match goal with
  | |- context [infer_wrapper ?c ?h ?s2] =>
      destruct (infer_wrapper_keeps_attributes c h s2) as (_ & _ & Hw & _);
      cbv zeta in Hw; destruct (tokens_of_ext _ _ Hw) as (Htw & _)
  end.
  rewrite Htw, Ht. repeat apply conj; try reflexivity.
  intros m e Hmodel Hraise. rewrite infer_wrapper_steps, Hm, Hmodel.
  cbv zeta. now rewrite Hraise.
Qed.

Lemma token_kept_when_forward_pass_raises_witness :
  fst (infer_tensor (stub failing_role) "r" llama_1b (token 8)
         (snd (infer_tensor (stub interior_role) "r" llama_1b (token 7)
                 (init false))))
  = Raise InferenceFailure
  /\ tokens_of
       (snd (infer_tensor (stub failing_role) "r" llama_1b (token 8)
               (snd (infer_tensor (stub interior_role) "r" llama_1b (token 7)
                       (init false)))))
     = [7; 8]%Q.
Proof.
  assert (Hok : past_ok (snd (infer_tensor (stub interior_role) "r" llama_1b
                                (token 7) (init false)))) by reflexivity.
  pose proof (token_kept_when_forward_pass_raises (stub failing_role) "r"
                llama_1b 8 _ Hok eq_refl) as (_ & _ & _ & Hraise).
  apply (Hraise (Model 0) InferenceFailure); reflexivity.
Defined.




(** ** Sampler *)

Lemma sample_steps c x temp top_k s :
  sample c x temp top_k s =
  match index_all_last x with
  | Ok logits => (tt_sample c logits temp top_k,
                  with_event (EvSample logits temp top_k) s)
  | Raise e => (Raise e, s)
  end.
Proof.
  unfold sample. run_method. now destruct (index_all_last x).
Qed.

(** C9, as the code has it: [sample] checks neither argument.  It slices
    the final position, hands the slice, the temperature and top-K unchanged
    to the sampling primitive and returns or raises what the primitive
    returns or raises; the only error of its own is the failed slice of an
    array without a second axis or with an empty one. *)
Theorem sample_forwards_parameters (c : collaborators) (x : ndarray)
  (temp : Q) (top_k : Z) (s : engine) :
  (forall logits, index_all_last x = Ok logits ->
     sample c x temp top_k s
     = (tt_sample c logits temp top_k,
        with_event (EvSample logits temp top_k) s))
  /\ (forall e, index_all_last x = Raise e ->
        sample c x temp top_k s = (Raise e, s)).
Proof.
  rewrite sample_steps. split.
  - now intros logits ->.
  - now intros e ->.
Qed.

Lemma sample_forwards_parameters_witness :
  sample (stub interior_role) logits_223 0 100 (init false)
  = (Ok (token 0),
     with_event
       (EvSample {| shape := [2; 3];
                    data := [1; 5; 2; (-1); (-3); 4]%Q |} 0 100)
       (init false)).
Proof.
  apply (sample_forwards_parameters (stub interior_role) logits_223 0 100
           (init false)).
  reflexivity.
Defined.

(** C9, as stated, fails: with top-K above the vocabulary size of 3, and
    with a negative temperature, [sample] returns token ids. *)
Lemma sample_accepts_invalid_parameters :
  fst (sample (sampling draw_first) logits_223 TEMP 25 (init false))
  = Ok {| shape := [2; 1]; data := [1; 2]%Q |}
  /\ fst (sample (sampling draw_first) logits_223 (-1) 1 (init false))
     = Ok {| shape := [2; 1]; data := [0; 1]%Q |}.
Proof. split; reflexivity. Qed.

(** *** The slice [x[:, -1]] *)

Section FinalPosition.

(** A batch of [b] sequences of [s] positions over [v] vocabulary
    entries, with at least one position. *)
Variables b s v : nat.
Hypothesis positions : 0 < s.

Lemma index_all_last_rank3 x :
  shape x = [b; s; v] ->
  index_all_last x
  = Ok {| shape := [b; v];
          data := last_of_blocks b (s * v) v (data x) |}.
Proof.
  intros Hsh. unfold index_all_last. rewrite Hsh.
  destruct (Nat.eqb_spec s 0) as [Hz|_]; [lia|].
  cbn [numel fold_right]. now rewrite Nat.mul_1_r.
Qed.

Lemma final_block_split : s * v = (s - 1) * v + v.
Proof.
  destruct s as [|s']; [lia|]. replace (S s' - 1) with s' by lia.
  cbn [Nat.mul]. lia.
Qed.

Lemma final_row_length d i :
  length d = b * (s * v) -> i < b -> length (final_row s v d i) = v.
Proof.
  intros Hd Hi. unfold final_row.
  rewrite length_firstn, length_skipn, Hd. apply Nat.min_l.
  assert (Hle : S i * (s * v) <= b * (s * v))
    by (apply Nat.mul_le_mono_r; lia).
  rewrite final_block_split in *. cbn [Nat.mul] in Hle.
  revert Hle. generalize ((s - 1) * v). intros p Hle.
  generalize dependent (i * (p + v)). generalize (b * (p + v)). lia.
Qed.

Lemma final_row_nth d i k :
  k < v ->
  nth k (final_row s v d i) 0%Q = nth ((i * s + (s - 1)) * v + k) d 0%Q.
Proof.
  intros Hk. unfold final_row. rewrite nth_firstn.
  destruct (Nat.ltb_spec k v) as [_|?]; [|lia].
  rewrite nth_skipn. f_equal. ring.
Qed.

Lemma final_row_skip d i :
  final_row s v (skipn (s * v) d) i = final_row s v d (S i).
Proof.
  unfold final_row. rewrite skipn_skipn. do 2 f_equal. ring.
Qed.

Lemma last_of_blocks_rows : forall n d,
  length d = n * (s * v) ->
  last_of_blocks n (s * v) v d = concat (map (final_row s v d) (seq 0 n)).
Proof.
  induction n as [|n IH]; intros d Hd; [reflexivity|].
  cbn [last_of_blocks seq map concat].
  rewrite <- seq_shift, map_map. f_equal.
  - unfold final_row. rewrite skipn_firstn_comm.
    rewrite final_block_split. cbn [Nat.mul Nat.add].
    generalize ((s - 1) * v). intros p.
    replace (p + v - v) with p by lia.
    replace (p + v - p) with v by lia.
    reflexivity.
  - rewrite IH.
    + f_equal. apply map_ext. intros i. apply final_row_skip.
    + rewrite length_skipn, Hd. cbn [Nat.mul]. lia.
Qed.

Lemma final_rows_lengths d :
  length d = b * (s * v) ->
  Forall (fun r => length r = v) (map (final_row s v d) (seq 0 b)).
Proof.
  intros Hd. apply Forall_forall. intros r Hin.
  apply in_map_iff in Hin as (i & <- & Hi). apply in_seq in Hi.
  apply final_row_length; [assumption | lia].
Qed.

Lemma well_formed_rank3 x :
  shape x = [b; s; v] -> well_formed x -> length (data x) = b * (s * v).
Proof.
  unfold well_formed. intros -> ->. cbn [numel fold_right].
  now rewrite Nat.mul_1_r.
Qed.

(** The slice holds, sequence by sequence, the logits of the final
    position. *)
Lemma index_all_last_final_rows x :
  shape x = [b; s; v] -> well_formed x ->
  index_all_last x
  = Ok {| shape := [b; v];
          data := concat (map (final_row s v (data x)) (seq 0 b)) |}.
Proof.
  intros Hsh Hwf. rewrite (index_all_last_rank3 x Hsh).
  now rewrite (last_of_blocks_rows b (data x) (well_formed_rank3 x Hsh Hwf)).
Qed.

Lemma final_rows_agree x y :
  shape x = [b; s; v] -> shape y = [b; s; v] ->
  well_formed x -> well_formed y ->
  (forall i k, i < b -> k < v ->
               entry x i (s - 1) k = entry y i (s - 1) k) ->
  map (final_row s v (data x)) (seq 0 b)
  = map (final_row s v (data y)) (seq 0 b).
Proof.
  intros Hx Hy Hwx Hwy Hagree. apply map_ext_in. intros i Hi.
  apply in_seq in Hi.
  pose proof (well_formed_rank3 x Hx Hwx) as Hlx.
  pose proof (well_formed_rank3 y Hy Hwy) as Hly.
  assert (Hib : i < b) by lia.
  apply (nth_ext _ _ 0%Q 0%Q).
  - now rewrite !final_row_length.
  - intros k Hk. rewrite final_row_length in Hk by assumption.
    rewrite !final_row_nth by assumption.
    specialize (Hagree i k Hib Hk). unfold entry in Hagree.
    now rewrite Hx, Hy in Hagree.
Qed.

End FinalPosition.

Lemma rows_of_concat v : forall rows,
  Forall (fun r => length r = v) rows ->
  rows_of (length rows) v (concat rows) = rows.
Proof.
  induction rows as [|r rows IH]; intros Hall; [reflexivity|].
  inversion Hall as [|? ? Hr Hrows]; subst.
  cbn [length rows_of concat].
  rewrite firstn_app, skipn_app, Nat.sub_diag, firstn_all, skipn_all.
  cbn [firstn skipn app]. now rewrite app_nil_r, IH.
Qed.

(** *** Top-1 selection *)

Lemma insert_desc_in x l y :
  In y (insert_desc x l) <-> y = x \/ In y l.
Proof.
  induction l as [|h l IH]; cbn.
  - intuition.
  - destruct (Qle_bool (snd h) (snd x)); cbn; [intuition|].
    rewrite IH. intuition.
Qed.

Lemma sort_desc_in l y : In y (sort_desc l) <-> In y l.
Proof.
  induction l as [|x l IH]; cbn; [tauto|].
  rewrite insert_desc_in, IH. intuition.
Qed.

Lemma insert_desc_head x l h rest :
  (forall h' rest', l = h' :: rest' ->
     forall y, In y l -> (snd y <= snd h')%Q) ->
  insert_desc x l = h :: rest ->
  forall y, In y (x :: l) -> (snd y <= snd h)%Q.
Proof.
  intros Hl Hins y Hy. destruct l as [|h' rest']; cbn in Hins.
  - injection Hins as <- <-. destruct Hy as [<-|[]]. apply Qle_refl.
  - specialize (Hl h' rest' eq_refl).
    destruct (Qle_bool (snd h') (snd x)) eqn:Hcmp.
    + injection Hins as <- <-. apply Qle_bool_iff in Hcmp.
      destruct Hy as [<-|Hy]; [apply Qle_refl|].
      eapply Qle_trans; [apply Hl, Hy | exact Hcmp].
    + injection Hins as <- <-.
      destruct Hy as [<-|Hy]; [|apply Hl, Hy].
      apply Qlt_le_weak, Qnot_le_lt. intros Hle.
      apply Qle_bool_iff in Hle. congruence.
Qed.

Lemma sort_desc_head l : forall h rest,
  sort_desc l = h :: rest -> forall y, In y l -> (snd y <= snd h)%Q.
Proof.
  induction l as [|x l IH]; intros h rest Hsort y Hy; [destruct Hy|].
  cbn in Hsort. apply (insert_desc_head x (sort_desc l) h rest).
  - intros h' rest' Hl z Hz. apply (IH h' rest' Hl).
    now apply sort_desc_in.
  - exact Hsort.
  - destruct Hy as [<-|Hy]; [now left|right; now apply sort_desc_in].
Qed.

Lemma enumerate_in row i q :
  In (i, q) (enumerate row) <-> i < length row /\ nth i row 0%Q = q.
Proof.
  unfold enumerate. split.
  - intros Hin. apply (In_nth _ _ (0, 0%Q)) in Hin as (n & Hn & Hnth).
    rewrite length_combine, length_seq, Nat.min_id in Hn.
    rewrite combine_nth in Hnth by apply length_seq.
    rewrite seq_nth in Hnth by assumption.
    injection Hnth as <- <-. auto.
  - intros (Hi & <-).
    replace (i, nth i row 0%Q)
      with (nth i (combine (seq 0 (length row)) row) (0, 0%Q)).
    + apply nth_In. now rewrite length_combine, length_seq, Nat.min_id.
    + rewrite combine_nth by apply length_seq. now rewrite seq_nth.
Qed.

Lemma sort_desc_nonempty row :
  row <> [] -> exists h rest, sort_desc (enumerate row) = h :: rest.
Proof.
  intros Hne. destruct (sort_desc (enumerate row)) as [|h rest] eqn:Hs;
    [|eauto].
  exfalso. destruct row as [|q row]; [congruence|].
  assert (Hin : In (0, q) (enumerate (q :: row))) by (now left).
  apply sort_desc_in in Hin. now rewrite Hs in Hin.
Qed.

(** [best] names an arg-max of the row. *)
Lemma best_is_argmax row :
  row <> [] ->
  best row < length row
  /\ forall k, k < length row -> (nth k row 0 <= nth (best row) row 0)%Q.
Proof.
  intros Hne. unfold best.
  destruct (sort_desc_nonempty row Hne) as ([m q] & rest & Hs). rewrite Hs.
  cbn [fst].
  assert (Hin : In (m, q) (enumerate row)).
  { apply sort_desc_in. rewrite Hs. now left. }
  apply enumerate_in in Hin as (Hm & Hq). split; [exact Hm|].
  intros k Hk. rewrite Hq.
  apply (sort_desc_head _ _ _ Hs (k, nth k row 0%Q)).
  now apply enumerate_in.
Qed.

(** With top-K = 1 a single candidate is left, so every draw returns it. *)
Lemma sample_row_top1 draw temp row :
  (forall candidates, candidates <> [] ->
     In (draw candidates) (map fst candidates)) ->
  row <> [] ->
  sample_row draw temp 1 row
  = inject_Z (Z.of_nat (best (scale temp row))).
Proof.
  intros Hdraw Hne. unfold sample_row, top_k_entries, best.
  assert (Hne' : scale temp row <> []).
  { unfold scale. destruct row; [congruence | discriminate]. }
  destruct (sort_desc_nonempty _ Hne') as (h & rest & ->).
  change (Z.to_nat 1) with 1. cbn [firstn].
  assert (H1 : [h] <> []) by discriminate.
  destruct (Hdraw [h] H1) as [<-|[]]. reflexivity.
Qed.

Lemma scale_nth temp row k :
  k < length row -> nth k (scale temp row) 0%Q = (nth k row 0 / temp)%Q.
Proof.
  intros Hk. unfold scale.
  rewrite (nth_indep _ 0%Q (0 / temp)%Q) by now rewrite length_map.
  apply (map_nth (fun l => (l / temp)%Q)).
Qed.

(** Dividing by a positive temperature keeps the arg-max. *)
Lemma best_scale temp row :
  (0 < temp)%Q -> row <> [] ->
  best (scale temp row) < length row
  /\ forall k, k < length row ->
       (nth k row 0 <= nth (best (scale temp row)) row 0)%Q.
Proof.
  intros Ht Hne.
  assert (Hne' : scale temp row <> []).
  { unfold scale. destruct row; [congruence | discriminate]. }
  destruct (best_is_argmax _ Hne') as (Hb & Hmax).
  assert (Hlen : length (scale temp row) = length row)
    by apply length_map.
  rewrite Hlen in Hb, Hmax. split; [exact Hb|].
  intros k Hk. specialize (Hmax k Hk).
  rewrite !scale_nth in Hmax by assumption.
  unfold Qdiv in Hmax.
  apply (Qmult_le_r _ _ (/ temp)); [now apply Qinv_lt_0_compat | exact Hmax].
Qed.

Lemma tt_sample_model_rows draw temp top_k v rows n :
  Forall (fun r => length r = v) rows -> length rows = n ->
  tt_sample_model draw {| shape := [n; v]; data := concat rows |} temp top_k
  = {| shape := [n; 1]; data := map (sample_row draw temp top_k) rows |}.
Proof.
  intros Hall <-. unfold tt_sample_model.
  cbn [shape data last removelast app numel fold_right].
  now rewrite Nat.mul_1_r, rows_of_concat.
Qed.

Lemma sample_top1 draw x b s v temp e :
  (forall candidates, candidates <> [] ->
     In (draw candidates) (map fst candidates)) ->
  shape x = [b; s; v] -> well_formed x -> 0 < s -> 0 < v ->
  fst (sample (sampling draw) x temp 1 e)
  = Ok {| shape := [b; 1];
          data := map (fun id => inject_Z (Z.of_nat id))
                    (map (fun i => best (scale temp
                                           (final_row s v (data x) i)))
                       (seq 0 b)) |}.
Proof.
  intros Hdraw Hsh Hwf Hs Hv.
  pose proof (well_formed_rank3 b s v x Hsh Hwf) as Hlen.
  rewrite sample_steps, (index_all_last_final_rows b s v Hs x Hsh Hwf).
  cbn [fst tt_sample sampling].
  rewrite (tt_sample_model_rows draw temp 1 v _ b
             (final_rows_lengths b s v Hs (data x) Hlen))
    by now rewrite length_map, length_seq.
  rewrite !map_map. do 2 f_equal. apply map_ext_in. intros i Hi.
  apply in_seq in Hi. apply sample_row_top1; [exact Hdraw|].
  intros Hnil. apply (f_equal (@length Q)) in Hnil.
  rewrite (final_row_length b s v Hs (data x) i Hlen) in Hnil by lia.
  cbn in Hnil. lia.
Qed.

Lemma draw_first_in candidates :
  candidates <> [] -> In (draw_first candidates) (map fst candidates).
Proof. destruct candidates as [|[id q] rest]; [congruence | now left]. Qed.

Lemma draw_last_in candidates :
  candidates <> [] -> In (draw_last candidates) (map fst candidates).
Proof.
  intros Hne. unfold draw_last. apply in_map.
  destruct (exists_last Hne) as (l & a & ->).
  rewrite last_last. apply in_or_app. right. now left.
Qed.

(** C7: the result of [sample] depends on its logits batch only through the
    logits of the final position, whatever the primitive and the
    parameters.  With the sampling primitive of the specification, any
    positive temperature and top-K = 1, it returns for each sequence of the
    batch an id whose final-position logit is greatest, and the same ids
    whichever way the random draw falls, hence on every repetition of the
    call. *)
Theorem sample_final_position_argmax
  (draw draw' : list (nat * Q) -> nat) (x : ndarray) (b s v : nat)
  (temp : Q) (e : engine) :
  (forall candidates, candidates <> [] ->
     In (draw candidates) (map fst candidates)) ->
  (forall candidates, candidates <> [] ->
     In (draw' candidates) (map fst candidates)) ->
  shape x = [b; s; v] -> well_formed x -> 0 < s -> 0 < v -> (0 < temp)%Q ->
  (forall c temp0 top_k0 y,
     shape y = [b; s; v] -> well_formed y ->
     (forall i k, i < b -> k < v ->
                  entry x i (s - 1) k = entry y i (s - 1) k) ->
     sample c x temp0 top_k0 e = sample c y temp0 top_k0 e)
  /\ (exists ids,
        length ids = b
        /\ fst (sample (sampling draw) x temp 1 e)
           = Ok {| shape := [b; 1];
                   data := map (fun id => inject_Z (Z.of_nat id)) ids |}
        /\ forall i, i < b ->
             nth i ids 0 < v
             /\ forall k, k < v ->
                  (entry x i (s - 1) k
                   <= entry x i (s - 1) (nth i ids 0%nat))%Q)
  /\ fst (sample (sampling draw') x temp 1 e)
     = fst (sample (sampling draw) x temp 1 e).
Proof.
  intros Hdraw Hdraw' Hsh Hwf Hs Hv Ht.
  pose proof (well_formed_rank3 b s v x Hsh Hwf) as Hlen.
  split; [|split].
  - intros c temp0 top_k0 y Hshy Hwfy Hagree.
    rewrite !sample_steps.
    rewrite (index_all_last_final_rows b s v Hs x Hsh Hwf).
    rewrite (index_all_last_final_rows b s v Hs y Hshy Hwfy).
    now rewrite (final_rows_agree b s v Hs x y Hsh Hshy Hwf Hwfy Hagree).
  - eexists. split; [|split].
    2: exact (sample_top1 draw x b s v temp e Hdraw Hsh Hwf Hs Hv).
    + now rewrite length_map, length_seq.
    + intros i Hi.
      set (f := fun i => best (scale temp (final_row s v (data x) i))).
      rewrite (nth_indep _ 0 (f 0)) by now rewrite length_map, length_seq.
      rewrite map_nth, seq_nth by assumption. cbn [Nat.add]. subst f.
      cbv beta.
      pose proof (final_row_length b s v Hs (data x) i Hlen Hi) as Hrow.
      assert (Hne : final_row s v (data x) i <> []).
      { intros Hnil. rewrite Hnil in Hrow. cbn in Hrow. lia. }
      destruct (best_scale temp _ Ht Hne) as (Hb & Hmax).
      rewrite Hrow in Hb, Hmax. split; [exact Hb|].
      intros k Hk. specialize (Hmax k Hk).
      rewrite !final_row_nth in Hmax by assumption.
      unfold entry. now rewrite Hsh.
  - now rewrite (sample_top1 draw x b s v temp e),
      (sample_top1 draw' x b s v temp e).
Qed.

Lemma sample_final_position_argmax_witness :
  fst (sample (sampling draw_last) logits_223 (1 # 100) 1 (init false))
  = fst (sample (sampling draw_first) logits_223 (1 # 100) 1 (init false)).
Proof.
  assert (Hsh : shape logits_223 = [2; 2; 3]) by reflexivity.
  assert (Hwf : well_formed logits_223) by reflexivity.
  assert (Hs : 0 < 2) by lia.
  assert (Hv : 0 < 3) by lia.
  assert (Ht : (0 < 1 # 100)%Q) by reflexivity.
  apply (sample_final_position_argmax draw_first draw_last logits_223 2 2 3
           (1 # 100) (init false) draw_first_in draw_last_in Hsh Hwf Hs Hv
           Ht).
Defined.

(** * Further properties of the engine *)

(** ** encode and decode *)

Lemma encode_steps c t shard prompt s :
  encode c t shard prompt s =
  match ensure_shard c shard s with
  | (Raise e, s1) => (Raise e, s1)
  | (Ok _, s1) =>
      match self_tokenizer s1 with
      | None => (Raise AttributeError, s1)
      | Some tk =>
          (match tokenizer_encode t tk prompt with
           | Ok (EncodedList ids) => Ok (tensor_of_list ids)
           | Ok (EncodedArray a) => Ok a
           | Raise e => Raise e
           end, s1)
      end
  end.
Proof.
  unfold encode. run_method.
  destruct (ensure_shard c shard s) as [[u|e] s1]; [|reflexivity].
  run_method. destruct (self_tokenizer s1) as [tk|]; [|reflexivity].
  run_method. now destruct (tokenizer_encode t tk prompt) as [[ids|a]|e].
Qed.

Lemma decode_steps c t shard tokens s :
  decode c t shard tokens s =
  match ensure_shard c shard s with
  | (Raise e, s1) => (Raise e, s1)
  | (Ok _, s1) =>
      match self_tokenizer s1 with
      | None => (Raise AttributeError, s1)
      | Some tk => (tokenizer_decode t tk (tolist tokens), s1)
      end
  end.
Proof.
  unfold decode. run_method.
  destruct (ensure_shard c shard s) as [[u|e] s1]; [|reflexivity].
  run_method. now destruct (self_tokenizer s1) as [tk|].
Qed.

Lemma tolist_tensor_of_list ids :
  tolist (tensor_of_list ids) = PyList (map PyNum ids).
Proof.
  unfold tolist, tensor_of_list. cbn [shape data tolist_from numel fold_right].
  f_equal. induction ids as [|q ids IH]; [reflexivity|].
  cbn [length rows_of map firstn skipn tolist_from hd]. now rewrite IH.
Qed.

(** X1: with the shard loaded by the call, [decode] undoes [encode] as far
    as the tokenizer does: when the tokenizer encodes the prompt as a list
    of ids and decodes that list to the prompt, [encode] returns the rank-1
    tensor of the ids and [decode] of that tensor returns the prompt, on the
    fast path, without any reload. *)
Theorem decode_encode_round_trip (c c' : collaborators) (t : tokenizer_ops)
  (shard : Shard) (prompt : string) (s : engine) (tk : tokenizer_handle)
  (ids : list Q) :
  is_ok (fst (ensure_shard c shard s)) = true ->
  self_tokenizer (snd (ensure_shard c shard s)) = Some tk ->
  tokenizer_encode t tk prompt = Ok (EncodedList ids) ->
  tokenizer_decode t tk (PyList (map PyNum ids)) = Ok prompt ->
  let out := encode c t shard prompt s in
  fst out = Ok (tensor_of_list ids)
  /\ decode c' t shard (tensor_of_list ids) (snd out) = (Ok prompt, snd out).
Proof.
  intros Hens Htk Henc Hdec. cbv zeta.
  pose proof (ensure_shard_stores_descriptor c shard s) as Hsh.
  rewrite encode_steps.
  destruct (ensure_shard c shard s) as [[u|e] s1]; cbn [fst snd is_ok] in *;
    [|discriminate].
  rewrite Htk, Henc. cbn [fst snd]. split; [reflexivity|].
  rewrite decode_steps, (ensure_shard_same c' shard s1 Hsh), Htk.
  now rewrite tolist_tensor_of_list, Hdec.
Qed.

Lemma decode_encode_round_trip_witness :
  fst (decode (offline (stub interior_role)) char_tokenizer llama_1b
         (tensor_of_list (codes "hello exo"))
         (snd (encode (stub interior_role) char_tokenizer llama_1b
                 "hello exo" (init false))))
  = Ok "hello exo"%string.
Proof.
  pose proof (decode_encode_round_trip (stub interior_role)
                (offline (stub interior_role)) char_tokenizer llama_1b
                "hello exo" (init false) (Tokenizer 0) (codes "hello exo")
                eq_refl eq_refl eq_refl eq_refl) as (_ & Hdec).
  now rewrite Hdec.
Defined.

(** X2: [encode] and [decode] change the engine exactly as [ensure_shard]
    does, so they touch neither the accumulated tokens nor the request id;
    when [ensure_shard] raises they raise the same error, whatever the
    tokenizer would have answered, and when no tokenizer is stored they
    raise AttributeError. *)
Theorem encode_decode_only_load (c : collaborators) (t : tokenizer_ops)
  (shard : Shard) (prompt : string) (tokens : ndarray) (s : engine) :
  let s1 := snd (ensure_shard c shard s) in
  snd (encode c t shard prompt s) = s1
  /\ snd (decode c t shard tokens s) = s1
  /\ self_past_tokens s1 = self_past_tokens s
  /\ self_request_id s1 = self_request_id s
  /\ (forall e, fst (ensure_shard c shard s) = Raise e ->
        fst (encode c t shard prompt s) = Raise e
        /\ fst (decode c t shard tokens s) = Raise e)
  /\ (is_ok (fst (ensure_shard c shard s)) = true ->
      self_tokenizer s1 = None ->
      fst (encode c t shard prompt s) = Raise AttributeError
      /\ fst (decode c t shard tokens s) = Raise AttributeError).
Proof.
  cbv zeta.
  pose proof (ensure_shard_keeps_session c shard s) as (Hid & Hpast & _).
  cbv zeta in Hid, Hpast.
  rewrite encode_steps, decode_steps.
  destruct (ensure_shard c shard s) as [[u|e] s1]; cbn [fst snd is_ok] in *.
  - destruct (self_tokenizer s1) as [tk|]; cbn [fst snd];
      repeat apply conj; try reflexivity; try assumption;
      try (intros; discriminate).
    intros _ _. split; reflexivity.
  - repeat apply conj; try reflexivity; try assumption.
    + intros e' He. injection He as <-. split; reflexivity.
    + discriminate.
Qed.

Lemma encode_decode_only_load_witness :
  fst (encode (offline (stub interior_role)) char_tokenizer llama_1b "hi"
         (init false)) = Raise ShardUnavailable
  /\ fst (decode (offline (stub interior_role)) char_tokenizer llama_1b
            (token 7) (init false)) = Raise ShardUnavailable.
Proof.
  pose proof (encode_decode_only_load (offline (stub interior_role))
                char_tokenizer llama_1b "hi" (token 7) (init false))
    as (_ & _ & _ & _ & Hraise & _).
  apply Hraise. reflexivity.
Defined.

(** ** What each method leaves alone *)

Lemma same_handles_refl s : same_handles s s.
Proof. repeat split. Qed.

Lemma same_handles_trans s1 s2 s3 :
  same_handles s1 s2 -> same_handles s2 s3 -> same_handles s1 s3.
Proof.
  unfold same_handles. intros (A1 & A2 & A3 & A4) (B1 & B2 & B3 & B4).
  repeat split; congruence.
Qed.

Lemma dispatch_frame request_id input_data s :
  same_handles s (snd (dispatch request_id input_data s))
  /\ trace (snd (dispatch request_id input_data s)) = trace s.
Proof.
  unfold dispatch, same_handles. run_method.
  destruct (shape_eqb (shape input_data) [1; 1]).
  - destruct (self_past_tokens s) as [past|]; run_method.
    + destruct (cat_last past input_data); repeat split.
    + repeat split.
  - destruct (ndim input_data =? 3); repeat split.
Qed.

(** The events a forward-pass submission adds: none, or one [generate]. *)
Lemma infer_wrapper_frame c hidden_state s :
  same_handles s (snd (infer_wrapper c hidden_state s))
  /\ (trace (snd (infer_wrapper c hidden_state s)) = trace s
      \/ exists m tokens,
           trace (snd (infer_wrapper c hidden_state s))
           = trace s ++ [EvGenerate m tokens hidden_state]).
Proof.
  rewrite infer_wrapper_steps. unfold same_handles.
  destruct (self_sharded_model s) as [m|] eqn:Hm; cbv zeta.
  - destruct (generate c m _ hidden_state) as [[[hs|] lg]|e];
      cbn [snd self_shard self_tokenizer self_sharded_model
           self_use_llama_tokenizer with_event trace];
      (split; [repeat split; assumption | right; eauto]).
  - cbn [snd]. split; [repeat split; assumption | now left].
Qed.

Lemma infer_tensor_frame c request_id shard input_data s :
  let s1 := snd (ensure_shard c shard s) in
  let s' := snd (infer_tensor c request_id shard input_data s) in
  same_handles s1 s'
  /\ (trace s' = trace s1
      \/ is_ok (fst (ensure_shard c shard s)) = true
         /\ exists m tokens hidden_state,
              trace s' = trace s1 ++ [EvGenerate m tokens hidden_state]).
Proof.
  cbv zeta. rewrite infer_tensor_steps.
  destruct (ensure_shard c shard s) as [[u|e] s1]; cbn [fst snd is_ok].
  2:{ split; [apply same_handles_refl | now left]. }
  destruct (dispatch_frame request_id input_data s1) as (Hd & Htr).
  destruct (dispatch request_id input_data s1) as [[h|e] s2];
    cbn [fst snd] in *.
  - destruct (infer_wrapper_frame c h s2) as (Hw & Hev). split.
    + eapply same_handles_trans; eassumption.
    + rewrite <- Htr. destruct Hev as [Hev|(m & tokens & Hev)].
      * now left.
      * right. split; [reflexivity|]. eauto.
  - split; [assumption | now left].
Qed.

Lemma sample_frame c x temp top_k s :
  let s' := snd (sample c x temp top_k s) in
  same_handles s s'
  /\ self_past_tokens s' = self_past_tokens s
  /\ self_request_id s' = self_request_id s
  /\ (trace s' = trace s
      \/ exists logits, trace s' = trace s ++ [EvSample logits temp top_k]).
Proof.
  cbv zeta. rewrite sample_steps.
  destruct (index_all_last x) as [logits|e]; cbn [snd].
  - repeat split. right. now exists logits.
  - repeat split. now left.
Qed.

Lemma after_encode c t shard prompt s :
  after (CallEncode c t shard prompt) s = snd (ensure_shard c shard s).
Proof.
  cbn [after]. rewrite encode_steps.
  destruct (ensure_shard c shard s) as [[u|e] s1]; [|reflexivity].
  now destruct (self_tokenizer s1).
Qed.

Lemma after_decode c t shard tokens s :
  after (CallDecode c t shard tokens) s = snd (ensure_shard c shard s).
Proof.
  cbn [after]. rewrite decode_steps.
  destruct (ensure_shard c shard s) as [[u|e] s1]; [|reflexivity].
  now destruct (self_tokenizer s1).
Qed.

(** The stored descriptor after any call is the one the call asked for. *)
Lemma after_shard o s :
  self_shard (after o s)
  = match op_shard o with
    | Some shard => Some shard
    | None => self_shard s
    end.
Proof.
  destruct o as [c shard|c rid shard input|c t shard p|c t shard tk
                 |c x temp k]; cbn [op_shard].
  - apply ensure_shard_stores_descriptor.
  - cbn [after].
    destruct (infer_tensor_frame c rid shard input s) as ((H & _) & _).
    rewrite H. apply ensure_shard_stores_descriptor.
  - rewrite after_encode. apply ensure_shard_stores_descriptor.
  - rewrite after_decode. apply ensure_shard_stores_descriptor.
  - cbn [after]. now destruct (sample_frame c x temp k s) as ((H & _) & _).
Qed.

Lemma run_cons o ops s : run (o :: ops) s = run ops (after o s).
Proof. reflexivity. Qed.

(** ** Invariants over arbitrary call sequences *)

Lemma handles_ordered_same s s' :
  same_handles s s' -> handles_ordered s -> handles_ordered s'.
Proof.
  unfold same_handles, handles_ordered.
  intros (H1 & H2 & H3 & _). now rewrite H1, H2, H3.
Qed.

Lemma ensure_shard_handles_ordered c shard s :
  handles_ordered s -> handles_ordered (snd (ensure_shard c shard s)).
Proof.
  unfold handles_ordered. intros (Hm & Ht).
  ensure_cases c shard s;
    cbn [snd self_shard self_tokenizer self_sharded_model with_event
         with_shard with_tokenizer with_sharded_model];
    split; intros; try discriminate; auto.
Qed.

Lemma ensure_shard_flag c shard s :
  self_use_llama_tokenizer (snd (ensure_shard c shard s))
  = self_use_llama_tokenizer s.
Proof. now destruct (ensure_shard_keeps_session c shard s) as (_ & _ & H). Qed.

Lemma after_handles_ordered o s :
  handles_ordered s ->
  handles_ordered (after o s)
  /\ self_use_llama_tokenizer (after o s) = self_use_llama_tokenizer s.
Proof.
  intros H.
  destruct o as [c shard|c rid shard input|c t shard p|c t shard tk
                 |c x temp k].
  - cbn [after]. split;
      [now apply ensure_shard_handles_ordered | apply ensure_shard_flag].
  - cbn [after].
    destruct (infer_tensor_frame c rid shard input s) as (Hsame & _).
    cbv zeta in Hsame. split.
    + eapply handles_ordered_same; [exact Hsame|].
      now apply ensure_shard_handles_ordered.
    + destruct Hsame as (_ & _ & _ & Hf). rewrite Hf.
      apply ensure_shard_flag.
  - rewrite after_encode. split;
      [now apply ensure_shard_handles_ordered | apply ensure_shard_flag].
  - rewrite after_decode. split;
      [now apply ensure_shard_handles_ordered | apply ensure_shard_flag].
  - cbn [after]. destruct (sample_frame c x temp k s) as (Hsame & _).
    cbv zeta in Hsame. split.
    + eapply handles_ordered_same; eassumption.
    + now destruct Hsame as (_ & _ & _ & Hf).
Qed.

Lemma run_handles_ordered ops : forall s,
  handles_ordered s ->
  handles_ordered (run ops s)
  /\ self_use_llama_tokenizer (run ops s) = self_use_llama_tokenizer s.
Proof.
  induction ops as [|o rest IH]; intros s H; [now split|].
  rewrite run_cons. destruct (after_handles_ordered o s H) as (H1 & H2).
  destruct (IH (after o s) H1) as (H3 & H4). split; congruence.
Qed.

Lemma init_handles_ordered use_llama : handles_ordered (init use_llama).
Proof. split; intros H; now elim H. Qed.

(** X3: after any sequence of method calls on a fresh engine, successful
    or not, a stored model comes with a stored tokenizer and a stored
    tokenizer with a stored descriptor, and the tokenizer switch still has
    the value it was created with. *)
Theorem handles_ordered_invariant (use_llama : bool) (ops : list op) :
  let s := run ops (init use_llama) in
  (self_sharded_model s <> None -> self_tokenizer s <> None)
  /\ (self_tokenizer s <> None -> self_shard s <> None)
  /\ self_use_llama_tokenizer s = use_llama.
Proof.
  cbv zeta.
  destruct (run_handles_ordered ops (init use_llama)
              (init_handles_ordered use_llama)) as ((Hm & Ht) & Hf).
  repeat split; assumption.
Qed.

(** ** Counting collaborator calls *)

Lemma downloads_app s s' evs :
  trace s' = trace s ++ evs ->
  downloads s'
  = downloads s
    + length (filter (fun ev => match ev with
                                | EvDownload _ _ => true
                                | _ => false
                                end) evs).
Proof.
  unfold downloads. intros ->. now rewrite filter_app, length_app.
Qed.

Lemma forward_passes_app s s' evs :
  trace s' = trace s ++ evs ->
  forward_passes s'
  = forward_passes s
    + length (filter (fun ev => match ev with
                                | EvGenerate _ _ _ => true
                                | _ => false
                                end) evs).
Proof.
  unfold forward_passes. intros ->. now rewrite filter_app, length_app.
Qed.

(** The events of one [ensure_shard] call: none on the fast path, else one
    downloader call followed by load steps, never a forward pass. *)
Lemma ensure_shard_events c shard s :
  exists evs,
    trace (snd (ensure_shard c shard s)) = trace s ++ evs
    /\ length (filter (fun ev => match ev with
                                 | EvDownload _ _ => true
                                 | _ => false
                                 end) evs)
       = (if shard_eqb (self_shard s) shard then 0 else 1)
    /\ filter (fun ev => match ev with
                         | EvGenerate _ _ _ => true
                         | _ => false
                         end) evs = [].
Proof.
  destruct (Shard_eq_dec' (self_shard s) shard) as [H|H].
  - rewrite (ensure_shard_same c shard s H).
    apply shard_eqb_true in H. rewrite H.
    exists []. now rewrite app_nil_r.
  - rewrite (ensure_shard_reload c shard s H).
    apply shard_eqb_false in H. rewrite H. cbv zeta.
    unfold tokenizer_event.
    repeat match goal with
           | |- context [match ?r with Ok _ => _ | Raise _ => _ end] =>
               destruct r
           end;
      destruct (self_use_llama_tokenizer s);
      cbn [snd trace with_event with_shard with_tokenizer with_sharded_model];
      repeat rewrite <- app_assoc; cbn [app];
      eexists; (split; [reflexivity | split; reflexivity]).
Qed.

Lemma ensure_shard_downloads c shard s :
  downloads (snd (ensure_shard c shard s))
  = downloads s + (if shard_eqb (self_shard s) shard then 0 else 1)
  /\ forward_passes (snd (ensure_shard c shard s)) = forward_passes s.
Proof.
  destruct (ensure_shard_events c shard s) as (evs & Htr & Hd & Hg).
  rewrite (downloads_app _ _ _ Htr), (forward_passes_app _ _ _ Htr), Hd, Hg.
  cbn [length]. lia.
Qed.

Lemma after_counts o s :
  downloads (after o s)
  = downloads s
    + match op_shard o with
      | Some shard => if shard_eqb (self_shard s) shard then 0 else 1
      | None => 0
      end
  /\ forward_passes s <= forward_passes (after o s)
  /\ forward_passes (after o s)
     <= forward_passes s + (if is_infer o then 1 else 0).
Proof.
  destruct o as [c shard|c rid shard input|c t shard p|c t shard tk
                 |c x temp k]; cbn [op_shard is_infer].
  - cbn [after]. destruct (ensure_shard_downloads c shard s) as (Hd & Hg).
    rewrite Hd, Hg. lia.
  - cbn [after]. destruct (ensure_shard_downloads c shard s) as (Hd & Hg).
    destruct (infer_tensor_frame c rid shard input s) as (_ & Hev).
    cbv zeta in Hev.
    destruct Hev as [Hev|(_ & m & tokens & h & Hev)].
    + unfold downloads, forward_passes in *. rewrite Hev. lia.
    + rewrite (downloads_app _ _ _ Hev), (forward_passes_app _ _ _ Hev).
      cbn [filter length]. lia.
  - rewrite after_encode.
    destruct (ensure_shard_downloads c shard s) as (Hd & Hg).
    rewrite Hd, Hg. lia.
  - rewrite after_decode.
    destruct (ensure_shard_downloads c shard s) as (Hd & Hg).
    rewrite Hd, Hg. lia.
  - cbn [after]. destruct (sample_frame c x temp k s) as (_ & _ & _ & Hev).
    cbv zeta in Hev. destruct Hev as [Hev|(logits & Hev)].
    + unfold downloads, forward_passes. rewrite Hev. lia.
    + rewrite (downloads_app _ _ _ Hev), (forward_passes_app _ _ _ Hev).
      cbn [filter length]. lia.
Qed.

(** X4: over any sequence of method calls, whatever the collaborators
    answer, the downloader is called exactly once for every call whose
    descriptor differs from the descriptor of the call before it (from the
    stored one, for the first call), and never otherwise; in particular a
    failed load is not retried while the same descriptor is requested. *)
Theorem downloads_count_switches (ops : list op) (s : engine) :
  downloads (run ops s) = downloads s + switches (self_shard s) ops.
Proof.
  revert s. induction ops as [|o rest IH]; intros s.
  - cbn. lia.
  - rewrite run_cons, IH, after_shard.
    destruct (after_counts o s) as (Hd & _). rewrite Hd.
    cbn [switches]. destruct (op_shard o) as [shard|]; lia.
Qed.

(** X5: over any sequence of method calls the model is asked for at most
    one forward pass per [infer_tensor] call; [ensure_shard], [encode],
    [decode] and [sample] never invoke it. *)
Theorem forward_passes_bounded (ops : list op) (s : engine) :
  forward_passes s <= forward_passes (run ops s)
  /\ forward_passes (run ops s)
     <= forward_passes s + length (filter is_infer ops).
Proof.
  revert s. induction ops as [|o rest IH]; intros s.
  - cbn. lia.
  - rewrite run_cons. destruct (IH (after o s)) as (Hlo & Hhi).
    destruct (after_counts o s) as (_ & Hlo' & Hhi').
    cbn [filter]. destruct (is_infer o); cbn [length] in *; lia.
Qed.

(** ** After a failed load *)

(** With the requested descriptor already stored, a call changes none of
    the handles and calls no downloader. *)
Lemma after_same_descriptor o shard s :
  self_shard s = Some shard ->
  op_shard o = Some shard \/ op_shard o = None ->
  same_handles s (after o s) /\ downloads (after o s) = downloads s.
Proof.
  intros Hs Ho. destruct (after_counts o s) as (Hd & _). rewrite Hd.
  split.
  2:{ destruct Ho as [-> | ->]; [|lia].
      apply shard_eqb_true in Hs. rewrite Hs. lia. }
  destruct o as [c sh|c rid sh input|c t sh p|c t sh tk|c x temp k];
    cbn [op_shard] in Ho;
    try (assert (sh = shard) as -> by (destruct Ho; congruence)).
  - cbn [after]. rewrite (ensure_shard_same c shard s Hs).
    apply same_handles_refl.
  - cbn [after].
    destruct (infer_tensor_frame c rid shard input s) as (Hsame & _).
    cbv zeta in Hsame. now rewrite (ensure_shard_same c shard s Hs) in Hsame.
  - rewrite after_encode, (ensure_shard_same c shard s Hs).
    apply same_handles_refl.
  - rewrite after_decode, (ensure_shard_same c shard s Hs).
    apply same_handles_refl.
  - cbn [after]. now destruct (sample_frame c x temp k s) as (Hsame & _).
Qed.

Lemma run_same_descriptor shard ops : forall s,
  self_shard s = Some shard ->
  Forall (fun o => op_shard o = Some shard \/ op_shard o = None) ops ->
  same_handles s (run ops s) /\ downloads (run ops s) = downloads s.
Proof.
  induction ops as [|o rest IH]; intros s Hs Hall.
  - split; [apply same_handles_refl | reflexivity].
  - inversion Hall as [|? ? Ho Hrest]; subst. rewrite run_cons.
    destruct (after_same_descriptor o shard s Hs Ho) as (Hsame & Hd).
    assert (Hs' : self_shard (after o s) = Some shard).
    { destruct Hsame as (H & _). congruence. }
    destruct (IH (after o s) Hs' Hrest) as (Hsame' & Hd'). split.
    + eapply same_handles_trans; eassumption.
    + congruence.
Qed.

Lemma infer_tensor_without_model c request_id shard input_data s :
  self_shard s = Some shard -> self_sharded_model s = None ->
  is_ok (fst (infer_tensor c request_id shard input_data s)) = false.
Proof.
  intros Hs Hm. rewrite infer_tensor_steps, (ensure_shard_same c shard s Hs).
  destruct (dispatch_frame request_id input_data s) as ((_ & _ & Hm' & _) & _).
  destruct (dispatch request_id input_data s) as [[h|e] s2];
    cbn [fst snd] in *; [|reflexivity].
  rewrite infer_wrapper_steps, Hm', Hm. reflexivity.
Qed.

(** X6: when the downloader raises during a load on an engine that holds
    no tokenizer and no model, the engine is left with the requested
    descriptor stored and nothing loaded, and it stays so for as long as
    callers keep asking for that descriptor: the downloader is not called
    again, [ensure_shard] returns at once, and every [infer_tensor],
    [encode] and [decode] call raises, whatever the collaborators would now
    answer. *)
Theorem failed_download_is_not_retried (c : collaborators) (shard : Shard)
  (s : engine) (e : exn) (ops : list op) :
  self_shard s <> Some shard ->
  self_tokenizer s = None -> self_sharded_model s = None ->
  shard_downloader_ensure_shard c shard class_name = Raise e ->
  Forall (fun o => op_shard o = Some shard \/ op_shard o = None) ops ->
  let s1 := snd (ensure_shard c shard s) in
  let s2 := run ops s1 in
  fst (ensure_shard c shard s) = Raise e
  /\ self_shard s2 = Some shard
  /\ self_tokenizer s2 = None
  /\ self_sharded_model s2 = None
  /\ downloads s2 = downloads s + 1
  /\ forall c' t request_id input_data prompt tokens,
       ensure_shard c' shard s2 = (Ok tt, s2)
       /\ is_ok (fst (infer_tensor c' request_id shard input_data s2)) = false
       /\ fst (encode c' t shard prompt s2) = Raise AttributeError
       /\ fst (decode c' t shard tokens s2) = Raise AttributeError.
Proof.
  intros Hne Htk Hm Hdl Hall. cbv zeta.
  pose proof (ensure_shard_stores_descriptor c shard s) as Hsh.
  assert (Hload : fst (ensure_shard c shard s) = Raise e
                  /\ self_tokenizer (snd (ensure_shard c shard s))
                     = self_tokenizer s
                  /\ self_sharded_model (snd (ensure_shard c shard s))
                     = self_sharded_model s).
  { rewrite (ensure_shard_reload c shard s Hne). cbv zeta. rewrite Hdl.
    repeat split. }
  destruct Hload as (Hr & Htk1 & Hm1).
  destruct (ensure_shard_downloads c shard s) as (Hd1 & _).
  apply shard_eqb_false in Hne. rewrite Hne in Hd1.
  destruct (run_same_descriptor shard ops _ Hsh Hall)
    as ((Hsh2 & Htk2 & Hm2 & _) & Hd2).
  rewrite Hsh in Hsh2. rewrite Htk1, Htk in Htk2. rewrite Hm1, Hm in Hm2.
  repeat apply conj; try assumption; try congruence.
  intros c' t rid input prompt tokens. repeat apply conj.
  - now apply ensure_shard_same.
  - now apply infer_tensor_without_model.
  - rewrite encode_steps, (ensure_shard_same c' shard _ Hsh2), Htk2.
    reflexivity.
  - rewrite decode_steps, (ensure_shard_same c' shard _ Hsh2), Htk2.
    reflexivity.
Qed.

Lemma failed_download_is_not_retried_witness :
  downloads
    (run [CallInferTensor (stub interior_role) "r" llama_1b (token 7);
          CallEncode (stub interior_role) char_tokenizer llama_1b "hi"]
       (snd (ensure_shard (offline (stub interior_role)) llama_1b
               (init false))))
  = 1
  /\ fst (encode (stub interior_role) char_tokenizer llama_1b "hi"
            (run [CallInferTensor (stub interior_role) "r" llama_1b
                    (token 7);
                  CallEncode (stub interior_role) char_tokenizer llama_1b
                    "hi"]
               (snd (ensure_shard (offline (stub interior_role)) llama_1b
                       (init false)))))
     = Raise AttributeError.
Proof.
  assert (Hne : self_shard (init false) <> Some llama_1b) by discriminate.
  assert (Hall : Forall (fun o => op_shard o = Some llama_1b
                                  \/ op_shard o = None)
                   [CallInferTensor (stub interior_role) "r" llama_1b
                      (token 7);
                    CallEncode (stub interior_role) char_tokenizer llama_1b
                      "hi"]).
  { repeat constructor. }
  pose proof (failed_download_is_not_retried (offline (stub interior_role))
                llama_1b (init false) ShardUnavailable _ Hne eq_refl eq_refl
                eq_refl Hall) as (_ & _ & _ & _ & Hd & Hcalls).
  split; [exact Hd|].
  now destruct (Hcalls (stub interior_role) char_tokenizer "r"%string
                  (token 7) "hi"%string (token 7)) as (_ & _ & Henc & _).
Defined.

(** X7: when a reload for a new descriptor fails at model construction, the
    engine keeps the model of the previous descriptor next to the new
    descriptor and the new tokenizer, and the next [infer_tensor] call for
    the new descriptor skips the reload and runs its forward pass on that
    previous model. *)
Theorem failed_construction_keeps_old_model (c c' : collaborators)
  (shard : Shard) (s : engine) (m0 : model_handle) (model_path : path)
  (model_config : config) (tk : tokenizer_handle) (e : exn)
  (request_id : string) (input_data : ndarray) :
  self_shard s <> Some shard ->
  self_sharded_model s = Some m0 ->
  shard_downloader_ensure_shard c shard class_name = Ok model_path ->
  load_model_config c (model_path ++ "/config.json")%string
    = Ok model_config ->
  make_tokenizer c (self_use_llama_tokenizer s) model_path = Ok tk ->
  ShardedLlamaModel c model_config shard = Raise e ->
  ndim input_data = 3 ->
  let s1 := snd (ensure_shard c shard s) in
  let out := infer_tensor c' request_id shard input_data s1 in
  fst (ensure_shard c shard s) = Raise e
  /\ self_shard s1 = Some shard
  /\ self_tokenizer s1 = Some tk
  /\ self_sharded_model s1 = Some m0
  /\ trace (snd out)
     = trace s1 ++ [EvGenerate m0 (self_past_tokens s) (Some input_data)]
  /\ forall hs logits,
       generate c' m0 (self_past_tokens s) (Some input_data)
         = Ok (Some hs, logits) ->
       fst out = Ok hs.
Proof.
  intros Hne Hm0 Hdl Hcfg Htk Hmod Hn. cbv zeta.
  pose proof (ensure_shard_stores_descriptor c shard s) as Hsh.
  assert (Hload : fst (ensure_shard c shard s) = Raise e
                  /\ self_tokenizer (snd (ensure_shard c shard s)) = Some tk
                  /\ self_sharded_model (snd (ensure_shard c shard s))
                     = self_sharded_model s).
  { rewrite (ensure_shard_reload c shard s Hne). cbv zeta.
    rewrite Hdl, Hcfg, Htk, Hmod. repeat split. }
  destruct Hload as (Hr & Htk1 & Hm1).
  pose proof (ensure_shard_keeps_session c shard s) as (_ & Hpast & _).
  cbv zeta in Hpast.
  assert (Hshape : shape input_data <> [1; 1]).
  { intros H. unfold ndim in Hn. now rewrite H in Hn. }
  assert (Hrun : infer_tensor c' request_id shard input_data
                   (snd (ensure_shard c shard s))
                 = infer_wrapper c' (Some input_data)
                     (with_request_id
                        (recorded request_id (snd (ensure_shard c shard s)))
                        (snd (ensure_shard c shard s)))).
  { rewrite infer_tensor_steps, (ensure_shard_same c' shard _ Hsh).
    rewrite dispatch_other by assumption. now rewrite Hn. }
  rewrite Hrun. repeat apply conj; try assumption; try congruence.
  - rewrite (infer_wrapper_arguments c' _ _ m0).
    + cbn [trace with_request_id self_past_tokens]. now rewrite Hpast.
    + cbn [self_sharded_model with_request_id]. congruence.
  - intros hs logits Hgen. rewrite infer_wrapper_steps.
    cbn [self_sharded_model self_past_tokens with_request_id].
    rewrite Hm1, Hm0, Hpast. cbv zeta. now rewrite Hgen.
Qed.

Lemma failed_construction_keeps_old_model_witness :
  self_shard
    (snd (ensure_shard (no_model (stub interior_role)) llama_3b
            (snd (ensure_shard (stub interior_role) llama_1b (init false)))))
  = Some llama_3b
  /\ fst (infer_tensor (stub interior_role) "r" llama_3b
            {| shape := [1; 1; 2]; data := [5; 6]%Q |}
            (snd (ensure_shard (no_model (stub interior_role)) llama_3b
                    (snd (ensure_shard (stub interior_role) llama_1b
                            (init false))))))
     = Ok {| shape := [1; 1; 2]; data := [3; 4]%Q |}.
Proof.
  assert (Hne : self_shard (snd (ensure_shard (stub interior_role) llama_1b
                                   (init false))) <> Some llama_3b)
    by discriminate.
  pose proof (failed_construction_keeps_old_model
                (no_model (stub interior_role)) (stub interior_role)
                llama_3b _ (Model 0) "/models/llama"%string (Config 0)
                (Tokenizer 0) ShardLoadFailure "r"%string
                {| shape := [1; 1; 2]; data := [5; 6]%Q |}
                Hne eq_refl eq_refl eq_refl eq_refl eq_refl eq_refl)
    as (_ & Hsh & _ & _ & _ & Hret).
  split; [exact Hsh|]. apply (Hret _ None). reflexivity.
Defined.

(** ** Token and request state over arbitrary call sequences *)

Lemma infer_tensor_other_past c request_id shard input_data s :
  shape input_data <> [1; 1] ->
  self_past_tokens (snd (infer_tensor c request_id shard input_data s))
  = self_past_tokens s.
Proof.
  intros Hs. rewrite infer_tensor_steps.
  pose proof (ensure_shard_keeps_session c shard s) as (_ & Hpast & _).
  cbv zeta in Hpast.
  destruct (ensure_shard c shard s) as [[u|e] s1]; cbn [fst snd] in *;
    [|assumption].
  rewrite dispatch_other by assumption.
  match goal with
  | |- context [infer_wrapper ?c ?h ?s2] =>
      destruct (infer_wrapper_keeps_attributes c h s2) as (_ & _ & Hw & _);
      cbv zeta in Hw; rewrite Hw
  end.
  exact Hpast.
Qed.

(** One call: what it adds to the accumulated ids. *)
Lemma after_tokens o s :
  past_ok s -> op_well_formed o ->
  past_ok (after o s)
  /\ (tokens_of (after o s) = tokens_of s
      \/ tokens_of (after o s) = tokens_of s ++ op_tokens o)
  /\ (all_pass [o] s = true ->
      tokens_of (after o s) = tokens_of s ++ op_tokens o).
Proof.
  intros Hok Hwf.
  assert (Hkeep : forall s', self_past_tokens s' = self_past_tokens s ->
                    op_tokens o = [] ->
                    past_ok s'
                    /\ (tokens_of s' = tokens_of s
                        \/ tokens_of s' = tokens_of s ++ op_tokens o)
                    /\ (all_pass [o] s = true ->
                        tokens_of s' = tokens_of s ++ op_tokens o)).
  { intros s' Hp Hnil. destruct (tokens_of_ext s s' Hp) as (Ht & Hok').
    rewrite Hnil, app_nil_r. auto. }
  destruct o as [c shard|c rid shard input|c t shard p|c t shard tk
                 |c x temp k].
  - apply Hkeep; [|reflexivity]. cbn [after].
    now destruct (ensure_shard_keeps_session c shard s) as (_ & H & _).
  - cbn [op_well_formed] in Hwf. cbn [op_tokens]. unfold shape_eqb.
    destruct (list_eq_dec Nat.eq_dec (shape input) [1; 1]) as [Hs|Hs].
    + destruct (well_formed_token _ Hwf Hs) as [q ->]. cbn [data token].
      set (r := {| req_collaborators := c; req_id := rid;
                   req_shard := shard; req_input := token q |}).
      change (after (CallInferTensor c rid shard (token q)) s)
        with (serve r s).
      assert (Hrw : well_formed (req_input r)) by reflexivity.
      destruct (serve_extends r s Hok Hrw) as (Hok' & suffix & Hsuf).
      split; [exact Hok'|]. split.
      * destruct (is_ok (fst (ensure_shard c shard s))) eqn:Hens.
        -- right. now destruct (serve_token r q s Hok Hens eq_refl).
        -- left. unfold serve, r. cbn [req_collaborators req_id req_shard
                                        req_input].
           rewrite infer_tensor_steps.
           pose proof (ensure_shard_keeps_session c shard s)
             as (_ & Hpast & _). cbv zeta in Hpast.
           destruct (ensure_shard c shard s) as [[u|e] s1];
             cbn [fst snd is_ok] in *; [discriminate|].
           now destruct (tokens_of_ext s s1 Hpast).
      * cbn [all_pass]. rewrite andb_true_r. intros Hens.
        now destruct (serve_token r q s Hok Hens eq_refl).
    + pose proof (infer_tensor_other_past c rid shard input s Hs) as Hp.
      destruct (tokens_of_ext s _ Hp) as (Ht & Hok').
      cbn [after]. rewrite app_nil_r. auto.
  - apply Hkeep; [|reflexivity]. rewrite after_encode.
    now destruct (ensure_shard_keeps_session c shard s) as (_ & H & _).
  - apply Hkeep; [|reflexivity]. rewrite after_decode.
    now destruct (ensure_shard_keeps_session c shard s) as (_ & H & _).
  - apply Hkeep; [|reflexivity]. cbn [after].
    now destruct (sample_frame c x temp k s) as (_ & H & _).
Qed.

(** X8: on a fresh engine, whatever mix of calls is made and whichever
    descriptors they ask for, the accumulated ids are, in call order, the
    ids of the (1, 1) inputs of the [infer_tensor] calls, provided each of
    those calls gets past [ensure_shard]: relayed hidden states, inputs of
    other shapes, [encode], [decode], [sample], [ensure_shard] and reloads
    for another descriptor add nothing and remove nothing. *)
Theorem accumulation_ignores_other_calls (use_llama : bool)
  (ops : list op) :
  Forall op_well_formed ops ->
  all_pass ops (init use_llama) = true ->
  tokens_of (run ops (init use_llama)) = concat (map op_tokens ops).
Proof.
  intros Hwf Hpass.
  assert (Hgen : forall ops s,
             past_ok s -> Forall op_well_formed ops ->
             all_pass ops s = true ->
             tokens_of (run ops s) = tokens_of s ++ concat (map op_tokens ops)).
  { clear. induction ops as [|o rest IH]; intros s Hok Hwf Hpass.
    - cbn. now rewrite app_nil_r.
    - inversion Hwf as [|? ? Ho Hrest]; subst.
      destruct (after_tokens o s Hok Ho) as (Hok' & _ & Htok).
      assert (Hone : all_pass [o] s = true /\ all_pass rest (after o s) = true).
      { cbn [all_pass] in *. apply andb_prop in Hpass as (H1 & H2).
        now rewrite H1, H2. }
      destruct Hone as (Hone & Hrestpass).
      rewrite run_cons, (IH (after o s) Hok' Hrest Hrestpass), (Htok Hone).
      cbn [map concat]. now rewrite app_assoc. }
  apply (Hgen ops (init use_llama) I Hwf Hpass).
Qed.

Lemma accumulation_ignores_other_calls_witness :
  tokens_of
    (run [CallEncode (stub interior_role) char_tokenizer llama_1b "hi";
          CallInferTensor (stub interior_role) "r" llama_1b (token 7);
          CallInferTensor (stub interior_role) "r" llama_3b
            {| shape := [1; 1; 2]; data := [5; 6]%Q |};
          CallSample (stub interior_role) logits_223 TEMP TOP_K;
          CallInferTensor (stub failing_role) "r" llama_1b (token 8)]
       (init false))
  = [7; 8]%Q.
Proof.
  apply (accumulation_ignores_other_calls false
           [CallEncode (stub interior_role) char_tokenizer llama_1b "hi";
            CallInferTensor (stub interior_role) "r" llama_1b (token 7);
            CallInferTensor (stub interior_role) "r" llama_3b
              {| shape := [1; 1; 2]; data := [5; 6]%Q |};
            CallSample (stub interior_role) logits_223 TEMP TOP_K;
            CallInferTensor (stub failing_role) "r" llama_1b (token 8)]).
  - repeat constructor.
  - reflexivity.
Defined.

Lemma after_request_id o s :
  self_request_id (after o s)
  = match o with
    | CallInferTensor c request_id shard _ =>
        if is_ok (fst (ensure_shard c shard s)) then recorded request_id s
        else self_request_id s
    | _ => self_request_id s
    end.
Proof.
  destruct o as [c shard|c rid shard input|c t shard p|c t shard tk
                 |c x temp k].
  - cbn [after]. now destruct (ensure_shard_keeps_session c shard s).
  - cbn [after]. apply infer_tensor_request_id.
  - rewrite after_encode. now destruct (ensure_shard_keeps_session c shard s).
  - rewrite after_decode. now destruct (ensure_shard_keeps_session c shard s).
  - cbn [after]. now destruct (sample_frame c x temp k s) as (_ & _ & H & _).
Qed.

(** X10: a non-empty request id, once recorded, is the engine's request id
    after any further sequence of method calls, whatever ids, descriptors
    and inputs they carry and however they end; and calls other than
    [infer_tensor] never record or change a request id. *)
Theorem request_id_is_stable (ops : list op) (s : engine) :
  (forall r, self_request_id s = Some r -> r <> EmptyString ->
             self_request_id (run ops s) = Some r)
  /\ (Forall (fun o => is_infer o = false) ops ->
      self_request_id (run ops s) = self_request_id s).
Proof.
  split.
  - intros r. revert s. induction ops as [|o rest IH]; intros s Hr Hne;
      [exact Hr|].
    rewrite run_cons. apply IH; [|exact Hne].
    rewrite after_request_id. destruct o; try exact Hr.
    unfold recorded. rewrite Hr, (truthy_nonempty r Hne).
    now destruct (is_ok _).
  - revert s. induction ops as [|o rest IH]; intros s Hall; [reflexivity|].
    inversion Hall as [|? ? Ho Hrest]; subst.
    rewrite run_cons, (IH _ Hrest), after_request_id.
    destruct o; try reflexivity. discriminate Ho.
Qed.

Lemma request_id_is_stable_witness :
  self_request_id
    (run [CallInferTensor (stub failing_role) "second" llama_3b (token 8);
          CallEncode (stub interior_role) char_tokenizer llama_1b "hi";
          CallInferTensor (offline (stub interior_role)) "third" llama_3b
            (token 9)]
       (snd (infer_tensor (stub interior_role) "first" llama_1b (token 7)
               (init false))))
  = Some "first"%string.
Proof.
  pose proof (request_id_is_stable
                [CallInferTensor (stub failing_role) "second" llama_3b
                   (token 8);
                 CallEncode (stub interior_role) char_tokenizer llama_1b
                   "hi";
                 CallInferTensor (offline (stub interior_role)) "third"
                   llama_3b (token 9)]
                (snd (infer_tensor (stub interior_role) "first" llama_1b
                        (token 7) (init false)))) as (Hkeep & _).
  apply Hkeep; [reflexivity | discriminate].
Defined.

(** ** What infer_tensor can return *)

Lemma dispatch_hidden request_id input_data s hidden_state :
  fst (dispatch request_id input_data s) = Ok hidden_state ->
  hidden_state = if ndim input_data =? 3 then Some input_data else None.
Proof.
  unfold dispatch, shape_eqb, ndim. run_method.
  destruct (list_eq_dec Nat.eq_dec (shape input_data) [1; 1]) as [Hs|Hs].
  - rewrite Hs. cbn [length Nat.eqb].
    destruct (self_past_tokens s) as [past|]; run_method.
    + destruct (cat_last past input_data); run_method; congruence.
    + congruence.
  - destruct (length (shape input_data) =? 3); run_method; congruence.
Qed.

(** X11: whenever [infer_tensor] returns, [ensure_shard] has returned, a
    model is stored, and the value returned is exactly the hidden state
    that the one forward pass of the call produced; the hidden state passed
    to the model is the input when the input has rank 3 and absent
    otherwise. *)
Theorem infer_tensor_returns_hidden_state (c : collaborators)
  (request_id : string) (shard : Shard) (input_data : ndarray) (s : engine)
  (a : ndarray) :
  fst (infer_tensor c request_id shard input_data s) = Ok a ->
  let s1 := snd (ensure_shard c shard s) in
  let hidden_state := if ndim input_data =? 3 then Some input_data
                      else None in
  is_ok (fst (ensure_shard c shard s)) = true
  /\ exists m tokens logits,
       self_sharded_model s1 = Some m
       /\ generate c m tokens hidden_state = Ok (Some a, logits)
       /\ trace (snd (infer_tensor c request_id shard input_data s))
          = trace s1 ++ [EvGenerate m tokens hidden_state].
Proof.
  cbv zeta. rewrite infer_tensor_steps.
  destruct (ensure_shard c shard s) as [[u|e] s1]; cbn [fst snd is_ok];
    [|discriminate].
  pose proof (dispatch_hidden request_id input_data s1) as Hh.
  destruct (dispatch_frame request_id input_data s1)
    as ((_ & _ & Hm & _) & Htr).
  destruct (dispatch request_id input_data s1) as [[h|e] s2];
    cbn [fst snd] in *; [|discriminate].
  rewrite <- (Hh h eq_refl). rewrite infer_wrapper_steps, <- Htr, <- Hm.
  destruct (self_sharded_model s2) as [m|]; [|discriminate]. cbv zeta.
  destruct (generate c m _ h) as [[[hs|] lg]|e] eqn:Hgen; cbn [fst snd];
    try discriminate.
  intros Ha. injection Ha as <-. split; [reflexivity|].
  exists m. eexists. exists lg. repeat split. exact Hgen.
Qed.

Lemma infer_tensor_returns_hidden_state_witness :
  exists m tokens logits,
    generate (stub interior_role) m tokens None
    = Ok (Some {| shape := [1; 1; 2]; data := [3; 4]%Q |}, logits).
Proof.
  destruct (infer_tensor_returns_hidden_state (stub interior_role) "r"
              llama_1b (token 7) (init false)
              {| shape := [1; 1; 2]; data := [3; 4]%Q |} eq_refl)
    as (_ & m & tokens & logits & _ & Hgen & _).
  exists m, tokens, logits. exact Hgen.
Defined.

(** ** The tokenizer switch *)

Ltac new_events :=
  eexists; split;
  [ cbn [snd trace with_event with_shard with_tokenizer with_sharded_model];
    repeat rewrite <- app_assoc; cbn [app]; reflexivity | ].

Ltac absent_event :=
  let q := fresh "q" in
  let Hin := fresh "Hin" in
  intros q Hin; cbn in Hin;
  repeat (destruct Hin as [Hin|Hin]; [discriminate Hin|]); exact Hin.

(** X12: the tokenizer constructor is chosen by the truth value of the
    USE_LLAMA_TOKENIZER variable read at construction, for the whole life
    of the engine: with any non-empty value, be it "0" or "false", every
    reload builds the llama3 tokenizer from
    [<model_path>/original/tokenizer.model] and never resolves one from the
    model path; with the variable unset or empty it is the other way
    round. *)
Theorem tokenizer_follows_environment (v : option string) (ops : list op)
  (c : collaborators) (shard : Shard) (model_path : path)
  (model_config : config) (t : tokenizer_handle) :
  let s := run ops (init_from_env v) in
  self_shard s <> Some shard ->
  shard_downloader_ensure_shard c shard class_name = Ok model_path ->
  load_model_config c (model_path ++ "/config.json")%string
    = Ok model_config ->
  let s' := snd (ensure_shard c shard s) in
  exists evs,
    trace s' = trace s ++ evs
    /\ (forall a rest, v = Some (String a rest) ->
          In (EvLlamaTokenizer
                (model_path ++ "/original/tokenizer.model")%string) evs
          /\ (forall q, ~ In (EvResolveTokenizer q) evs)
          /\ (llama3_tokenizer c
                (model_path ++ "/original/tokenizer.model")%string = Ok t ->
              self_tokenizer s' = Some t))
    /\ (v = None \/ v = Some EmptyString ->
        In (EvResolveTokenizer model_path) evs
        /\ (forall q, ~ In (EvLlamaTokenizer q) evs)
        /\ (_resolve_tokenizer c model_path = Ok t ->
            self_tokenizer s' = Some t)).
Proof.
  intros s Hne Hdl Hcfg s'. subst s s'.
  destruct (run_handles_ordered ops (init_from_env v)
              (init_handles_ordered (truthy v))) as (_ & Hflag).
  cbn [init_from_env init self_use_llama_tokenizer] in Hflag.
  rewrite (ensure_shard_reload c shard _ Hne). cbv zeta.
  rewrite Hdl, Hcfg, Hflag. unfold make_tokenizer, tokenizer_event.
  destruct (truthy v) eqn:Hv;
    [destruct (llama3_tokenizer c _) as [tk|e] eqn:Htk
    |destruct (_resolve_tokenizer c model_path) as [tk|e] eqn:Htk];
    try destruct (ShardedLlamaModel c model_config shard) as [m|e'];
    new_events;
    (split;
     [intros a rest Hva; try (rewrite Hva in Hv; discriminate Hv)
     |intros Hva; try (destruct Hva as [Hva|Hva]; rewrite Hva in Hv;
                       discriminate Hv)]);
    (split; [cbn; tauto|]); (split; [absent_event|]);
    intros Ht; try discriminate Ht; injection Ht as <-; reflexivity.
Qed.

Lemma tokenizer_follows_environment_witness :
  self_tokenizer
    (snd (ensure_shard (stub interior_role) llama_3b
            (run [CallInferTensor (stub interior_role) "r" llama_1b
                    (token 7)]
               (init_from_env (Some "false"%string)))))
  = Some (Tokenizer 1).
Proof.
  assert (Hne : self_shard
                  (run [CallInferTensor (stub interior_role) "r" llama_1b
                          (token 7)]
                     (init_from_env (Some "false"%string)))
                <> Some llama_3b) by discriminate.
  destruct (tokenizer_follows_environment (Some "false"%string)
              [CallInferTensor (stub interior_role) "r" llama_1b (token 7)]
              (stub interior_role) llama_3b "/models/llama"%string
              (Config 0) (Tokenizer 1) Hne eq_refl eq_refl)
    as (evs & _ & Hllama & _).
  destruct (Hllama _ _ eq_refl) as (_ & _ & Htk). now apply Htk.
Defined.

(** X13: when a reload fails at weight loading, the model constructed by
    that reload is already stored: the next [infer_tensor] call for the same
    descriptor skips the reload, never asks for the weights again and runs
    its forward pass on that model. *)
Theorem failed_weight_loading_keeps_new_model (c c' : collaborators)
  (shard : Shard) (s : engine) (model_path : path) (model_config : config)
  (tk : tokenizer_handle) (m : model_handle) (e : exn)
  (request_id : string) (input_data : ndarray) :
  self_shard s <> Some shard ->
  shard_downloader_ensure_shard c shard class_name = Ok model_path ->
  load_model_config c (model_path ++ "/config.json")%string
    = Ok model_config ->
  make_tokenizer c (self_use_llama_tokenizer s) model_path = Ok tk ->
  ShardedLlamaModel c model_config shard = Ok m ->
  load_model_weights_torchtune c model_path shard m = Raise e ->
  ndim input_data = 3 ->
  let s1 := snd (ensure_shard c shard s) in
  let out := infer_tensor c' request_id shard input_data s1 in
  fst (ensure_shard c shard s) = Raise e
  /\ self_sharded_model s1 = Some m
  /\ trace (snd out)
     = trace s1 ++ [EvGenerate m (self_past_tokens s) (Some input_data)]
  /\ forall hs logits,
       generate c' m (self_past_tokens s) (Some input_data)
         = Ok (Some hs, logits) ->
       fst out = Ok hs.
Proof.
  intros Hne Hdl Hcfg Htk Hmod Hw Hn. cbv zeta.
  pose proof (ensure_shard_stores_descriptor c shard s) as Hsh.
  assert (Hload : fst (ensure_shard c shard s) = Raise e
                  /\ self_sharded_model (snd (ensure_shard c shard s))
                     = Some m).
  { rewrite (ensure_shard_reload c shard s Hne). cbv zeta.
    rewrite Hdl, Hcfg, Htk, Hmod, Hw. repeat split. }
  destruct Hload as (Hr & Hm1).
  pose proof (ensure_shard_keeps_session c shard s) as (_ & Hpast & _).
  cbv zeta in Hpast.
  assert (Hshape : shape input_data <> [1; 1]).
  { intros H. unfold ndim in Hn. now rewrite H in Hn. }
  assert (Hrun : infer_tensor c' request_id shard input_data
                   (snd (ensure_shard c shard s))
                 = infer_wrapper c' (Some input_data)
                     (with_request_id
                        (recorded request_id (snd (ensure_shard c shard s)))
                        (snd (ensure_shard c shard s)))).
  { rewrite infer_tensor_steps, (ensure_shard_same c' shard _ Hsh).
    rewrite dispatch_other by assumption. now rewrite Hn. }
  rewrite Hrun. repeat apply conj; try assumption.
  - rewrite (infer_wrapper_arguments c' _ _ m).
    + cbn [trace with_request_id self_past_tokens]. now rewrite Hpast.
    + cbn [self_sharded_model with_request_id]. exact Hm1.
  - intros hs logits Hgen. rewrite infer_wrapper_steps.
    cbn [self_sharded_model self_past_tokens with_request_id].
    rewrite Hm1, Hpast. cbv zeta. now rewrite Hgen.
Qed.

Lemma failed_weight_loading_keeps_new_model_witness :
  fst (infer_tensor (stub interior_role) "r" llama_1b
         {| shape := [1; 1; 2]; data := [5; 6]%Q |}
         (snd (ensure_shard (no_weights (stub interior_role)) llama_1b
                 (init false))))
  = Ok {| shape := [1; 1; 2]; data := [3; 4]%Q |}.
Proof.
  assert (Hne : self_shard (init false) <> Some llama_1b) by discriminate.
  pose proof (failed_weight_loading_keeps_new_model
                (no_weights (stub interior_role)) (stub interior_role)
                llama_1b (init false) "/models/llama"%string (Config 0)
                (Tokenizer 0) (Model 0) ShardLoadFailure "r"%string
                {| shape := [1; 1; 2]; data := [5; 6]%Q |}
                Hne eq_refl eq_refl eq_refl eq_refl eq_refl eq_refl)
    as (_ & _ & _ & Hret).
  apply (Hret _ None). reflexivity.
Defined.

(** ** The slice taken by sample *)

Lemma last_of_blocks_length block keep : forall rows d,
  length d = rows * block -> keep <= block ->
  length (last_of_blocks rows block keep d) = rows * keep.
Proof.
  induction rows as [|rows IH]; intros d Hd Hk; [reflexivity|].
  cbn [last_of_blocks]. rewrite length_app, length_skipn, length_firstn.
  rewrite IH by (rewrite ?length_skipn; cbn [Nat.mul] in Hd; lia).
  cbn [Nat.mul] in *. lia.
Qed.

(** X14: [sample] raises IndexError, leaving the engine as it was and the
    sampling primitive uncalled, when its argument has fewer than two axes
    or an empty second axis; otherwise, for a well-formed array of shape
    (d0, d1, rest...), the primitive is called exactly once, with the given
    temperature and top-K and a well-formed array of shape (d0, rest...). *)
Theorem sample_slice (c : collaborators) (x : ndarray) (temp : Q)
  (top_k : Z) (s : engine) :
  (ndim x < 2 \/ nth 1 (shape x) 0 = 0 ->
   sample c x temp top_k s = (Raise IndexError, s))
  /\ (well_formed x -> 2 <= ndim x -> nth 1 (shape x) 0 <> 0 ->
      exists logits,
        shape logits = hd 0 (shape x) :: skipn 2 (shape x)
        /\ well_formed logits
        /\ sample c x temp top_k s
           = (tt_sample c logits temp top_k,
              with_event (EvSample logits temp top_k) s)).
Proof.
  rewrite sample_steps. unfold index_all_last, ndim, well_formed.
  destruct (shape x) as [|d0 [|d1 rest]] eqn:Hsh; cbn [length nth hd skipn].
  - split; [reflexivity | intros _ H; lia].
  - split; [reflexivity | intros _ H; lia].
  - destruct (Nat.eqb_spec d1 0) as [Hz|Hz].
    + split; [reflexivity | intros _ _ H; contradiction].
    + split; [intros [H|H]; [lia | contradiction]|].
      intros Hwf _ _.
      exists {| shape := d0 :: rest;
                data := last_of_blocks d0 (d1 * numel rest) (numel rest)
                          (data x) |}.
      split; [reflexivity|]. split; [|reflexivity].
      cbn [data shape numel fold_right] in *.
      apply last_of_blocks_length; [exact Hwf|].
      destruct d1 as [|d1']; [contradiction|]. cbn [Nat.mul].
      apply Nat.le_add_r.
Qed.

Lemma sample_slice_witness :
  sample (stub interior_role) {| shape := [3]; data := [1; 2; 3]%Q |}
    TEMP TOP_K (init false)
  = (Raise IndexError, init false).
Proof.
  apply (sample_slice (stub interior_role)
           {| shape := [3]; data := [1; 2; 3]%Q |} TEMP TOP_K (init false)).
  left. cbn. lia.
Defined.
